(** * FileToHeaderConverter: a shallow embedding of [Src/Main.cpp]

    The program turns a file into a C++ header, either as an array of
    hexadecimal byte literals or as a raw string literal.  This file
    embeds [main], [CompareStrings], [ProcessString], [ProcessHex] and
    [ValidateArrayName] as functions over an explicit world (the files,
    the record of the files opened, standard output and the error
    stream) and proves the properties the specification states about
    them.

    Streams hold the characters the program inserts; what a platform's
    text mode does to a newline on its way to the disk is outside the
    model.  The block under [SANITY_CHECK_OUTPUT_FILE] is not compiled
    (the macro is commented out) and is not modelled. *)

From Stdlib Require Import ZArith NArith Lia.
From Stdlib.Strings Require Import Byte Ascii.
From Stdlib Require String.
From Equations Require Import Equations.
From Equations.Prop Require Import Logic.
From stdpp Require Import gmap strings list.

Local Open Scope Z_scope.

(** ** Characters and C strings *)

(** A [const char*] is modelled by the [string] of the characters in
    front of its terminating null: reading at the end of the string
    yields the terminator.  A well-formed C string holds no null
    character of its own ([is_cstring]); the functions below nevertheless
    test every character they read against ['\0'], as the source does,
    so that on any [string] they behave as the C code does on the
    memory that holds it. *)

Definition NUL : ascii := Ascii.zero.

(** The double quote character. *)
Definition DQUOTE : ascii := "034"%char.

Definition bytes (s : string) : list byte := String.list_byte_of_string s.

(** [*p] *)
Definition deref (p : string) : ascii :=
  match p with
  | EmptyString => NUL
  | String c _ => c
  end.

(** [p + 1] *)
Definition next (p : string) : string :=
  match p with
  | EmptyString => EmptyString
  | String _ rest => rest
  end.

(** A well-formed C string: no null character before the terminator. *)
Fixpoint is_cstring (s : string) : bool :=
  match s with
  | EmptyString => true
  | String c rest => negb (Ascii.eqb c NUL) && is_cstring rest
  end.

(** What the C code sees of a [string]: its characters up to the first
    null. *)
Fixpoint c_str (s : string) : string :=
  match s with
  | EmptyString => EmptyString
  | String c rest => if Ascii.eqb c NUL then EmptyString else String c (c_str rest)
  end.

(** ** Streams

    An output stream carries the characters inserted so far and the
    formatting state that [<<] consults: the field width (reset by
    every formatted insertion), the fill character and the number
    base. *)

Record ostream := {
  os_buf : list byte;
  os_width : nat;
  os_fill : byte;
  os_hex : bool
}.

Definition LF : byte := x0a.

(** A freshly opened stream: width 0, fill [' '], decimal. *)
Definition fresh_ostream : ostream :=
  {| os_buf := []; os_width := 0; os_fill := " "%byte; os_hex := false |}.

(** Padding of a formatted insertion (right adjustment, the default). *)
Definition padded (os : ostream) (s : list byte) : list byte :=
  repeat (os_fill os) (os_width os - length s)%nat ++ s.

(** Formatted insertion of a character sequence; the width is reset. *)
Definition put (s : list byte) (os : ostream) : ostream :=
  {| os_buf := os_buf os ++ padded os s; os_width := 0;
     os_fill := os_fill os; os_hex := os_hex os |}.

(** [os << p] for [const char* p]: the characters up to the null. *)
Definition put_cstr (p : string) (os : ostream) : ostream :=
  put (bytes (c_str p)) os.

(** [os << std::endl]: an unformatted newline (and a flush). *)
Definition endl (os : ostream) : ostream :=
  {| os_buf := os_buf os ++ [LF]; os_width := os_width os;
     os_fill := os_fill os; os_hex := os_hex os |}.

Definition setw (n : nat) (os : ostream) : ostream :=
  {| os_buf := os_buf os; os_width := n;
     os_fill := os_fill os; os_hex := os_hex os |}.

Definition setfill (c : byte) (os : ostream) : ostream :=
  {| os_buf := os_buf os; os_width := os_width os;
     os_fill := c; os_hex := os_hex os |}.

Definition hex (os : ostream) : ostream :=
  {| os_buf := os_buf os; os_width := os_width os;
     os_fill := os_fill os; os_hex := true |}.

(** Digits of a number, most significant first; lowercase, since
    [std::uppercase] is never set. *)
Definition digit_char (d : N) : byte :=
  nth (N.to_nat d) (bytes "0123456789abcdef") "0"%byte.

Fixpoint digits_aux (base : N) (fuel : nat) (n : N) (acc : list byte)
  : list byte :=
  match fuel with
  | O => acc
  | S fuel' =>
      let acc' := digit_char (n mod base) :: acc in
      if (n / base =? 0)%N then acc' else digits_aux base fuel' (n / base) acc'
  end.

(** A number has no more digits than bits. *)
Definition digits (base : N) (n : N) : list byte :=
  digits_aux base (S (N.size_nat n)) n [].

(** [os << n] for a non-negative [int]. *)
Definition put_int (n : N) (os : ostream) : ostream :=
  put (digits (if os_hex os then 16 else 10)%N n) os.

Notation "w |> f" := (f w) (at level 45, left associativity, only parsing).

(** ** The world: files, standard output and the error stream

    [files] maps the name of every existing file to its content;
    [can_read] and [can_write] say for which names opening succeeds;
    [opened] lists the names the program tried to open, in order. *)

Record World := {
  files : gmap string (list byte);
  can_read : string -> bool;
  can_write : string -> bool;
  opened : list string;
  cout : list byte;
  cerr : list byte
}.

Definition set_files (f : gmap string (list byte)) (w : World) : World :=
  {| files := f; can_read := can_read w; can_write := can_write w;
     opened := opened w; cout := cout w; cerr := cerr w |}.

Definition set_opened (names : list string) (w : World) : World :=
  {| files := files w; can_read := can_read w; can_write := can_write w;
     opened := names; cout := cout w; cerr := cerr w |}.

Definition set_cout (o : list byte) (w : World) : World :=
  {| files := files w; can_read := can_read w; can_write := can_write w;
     opened := opened w; cout := o; cerr := cerr w |}.

Definition set_cerr (e : list byte) (w : World) : World :=
  {| files := files w; can_read := can_read w; can_write := can_write w;
     opened := opened w; cout := cout w; cerr := e |}.

(** [std::cout << s], [std::cout << std::endl] and
    [std::cerr << s << std::endl]; the program never changes the
    formatting state of these two streams. *)
Definition cout_put (s : string) (w : World) : World :=
  set_cout (cout w ++ bytes (c_str s)) w.

Definition cout_endl (w : World) : World :=
  set_cout (cout w ++ [LF]) w.

Definition cout_line (s : string) (w : World) : World :=
  w |> cout_put s |> cout_endl.

Definition cerr_line (s : string) (w : World) : World :=
  set_cerr (cerr w ++ bytes (c_str s) ++ [LF]) w.

(** Every attempt to open a file is recorded, in order. *)
Definition log_open (name : string) (w : World) : World :=
  set_opened (opened w ++ [c_str name]) w.

(** [std::ifstream in(name, std::ios::binary)], with the answer of
    [in.is_open()]. *)
Definition ifstream_open (name : string) (w : World) : bool * World :=
  (can_read w (c_str name) && bool_decide (is_Some (files w !! c_str name)),
   log_open name w).

(** The bytes an open input stream delivers; they are read from the
    file when the program extracts them, after the output file has been
    opened. *)
Definition ifstream_bytes (name : string) (w : World) : list byte :=
  default [] (files w !! c_str name).

(** [std::ofstream out(name)], with the answer of [out.is_open()]:
    opening creates the file or truncates it. *)
Definition ofstream_open (name : string) (w : World) : bool * World :=
  if can_write w (c_str name)
  then (true, set_files (<[c_str name := []]> (files (log_open name w)))
                (log_open name w))
  else (false, log_open name w).

(** [out.close()]: everything inserted is in the file. *)
Definition ofstream_close (name : string) (os : ostream) (w : World) : World :=
  set_files (<[c_str name := os_buf os]> (files w)) w.

(** * The program *)

Section Converter.

(** Whether plain [char] is signed is left to the platform; it decides
    the integer a character is promoted to. *)
Variable char_is_signed : bool.

(** The macro [PROJECT_NAME] is supplied by the build, not by
    [Main.cpp]. *)
Variable PROJECT_NAME : string.

(** Integer promotion of a [char]. *)
Definition int_of_char (c : ascii) : Z :=
  let n := Z.of_N (N_of_ascii c) in
  if char_is_signed && (128 <=? n) then n - 256 else n.

(** [int CompareStrings(const char* string1, const char* string2)] *)
Fixpoint CompareStrings (string1 string2 : string) : Z :=
  let c1 := deref string1 in
  let c2 := deref string2 in
  match string1 with
  | String _ string1' =>
      if negb (Ascii.eqb c1 NUL) && negb (Ascii.eqb c2 NUL) && Ascii.eqb c1 c2
      then CompareStrings string1' (next string2)
      else if Ascii.eqb c1 NUL && Ascii.eqb c2 NUL then 0
      else int_of_char c1 - int_of_char c2
  | EmptyString =>
      if Ascii.eqb c1 NUL && Ascii.eqb c2 NUL then 0
      else int_of_char c1 - int_of_char c2
  end.

(** [argv[i]], for [i] below [argc]. *)
Definition arg (argv : list string) (i : nat) : string :=
  default EmptyString (argv !! i).

Definition char_le (a b : ascii) : bool := int_of_char a <=? int_of_char b.

(** The character test of [ValidateArrayName]'s loop body. *)
Definition allowed_character (character : ascii) : bool :=
  Ascii.eqb character "_"
  || (char_le "0" character && char_le character "9")
  || (char_le "A" character && char_le character "Z")
  || (char_le "a" character && char_le character "z").

(** The test on [arrayName[0]]. *)
Definition allowed_first (character : ascii) : bool :=
  Ascii.eqb character "_"
  || (char_le "A" character && char_le character "Z")
  || (char_le "a" character && char_le character "z").

(** The [for] loop of [ValidateArrayName], from [characterPtr] on. *)
Fixpoint validate_loop (characterPtr : string) (validName : bool) : bool :=
  match characterPtr with
  | EmptyString => validName
  | String character characterPtr' =>
      if Ascii.eqb character NUL then validName
      else if negb (allowed_character character) then false
      else validate_loop characterPtr' validName
  end.

(** [bool ValidateArrayName(const char* arrayName)] *)
Definition ValidateArrayName (arrayName : string) (w : World) : bool * World :=
  let validName := true in
  let validName :=
    if negb (allowed_first (deref arrayName)) then false else validName in
  let validName := validate_loop arrayName validName in
  if negb validName then
    (false,
     w |> cerr_line "Error: Invalid array name"
       |> cerr_line "    Only the following ASCII characters are allowed:"
       |> cerr_line "        '_'"
       |> cerr_line "        '0' to '9'"
       |> cerr_line "        'A' to 'Z'"
       |> cerr_line "        'a' to 'z'"
       |> cerr_line "    The first character can't be '0' to '9'.")
  else (true, w).

(** ** The string encoder *)

(** The characters [std::getline] stores and what the stream holds
    afterwards: it reads up to the first newline, which it extracts and
    discards, or to the end of the input. *)
Fixpoint getline_split (input : list byte) : list byte * list byte :=
  match input with
  | [] => ([], [])
  | c :: rest =>
      if Byte.eqb c LF then ([], rest)
      else let (line, rest') := getline_split rest in (c :: line, rest')
  end.

(** [std::getline(in, line)]: fails when no character can be extracted. *)
Definition getline (input : list byte) : option (list byte * list byte) :=
  match input with
  | [] => None
  | _ :: _ => Some (getline_split input)
  end.

(** [while (std::getline(in, line)) out << line;] *)
Equations? string_loop (input : list byte) (os : ostream) : ostream
  by wf (length input) lt :=
  string_loop input os with inspect (getline input) => {
    | exist _ (Some (pair line rest)) Hget => string_loop rest (put line os);
    | exist _ None _ => os }.
Proof.
  clear string_loop.
  destruct input as [|c input]; [discriminate|].
  unfold getline in Hget. injection Hget as Hget.
  revert c line rest Hget.
  induction input as [|d input IH]; intros c line rest; simpl.
  - destruct (Byte.eqb c LF); intros [= <- <-]; simpl; lia.
  - destruct (Byte.eqb c LF).
    + intros [= <- <-]. simpl. lia.
    + specialize (IH d). simpl in IH.
      destruct (Byte.eqb d LF).
      * intros [= <- <-]. simpl. lia.
      * destruct (getline_split input) as [l r].
        intros [= <- <-]. specialize (IH _ _ eq_refl). simpl in *. lia.
Qed.

(** [int ProcessString(int argc, char** argv)] *)
Definition ProcessString (argv : list string) (w : World) : Z * World :=
  let inputFileName := arg argv 2 in
  let outputFileName := arg argv 3 in
  let arrayName := arg argv 4 in
  if CompareStrings inputFileName outputFileName =? 0 then
    (1, w |> cerr_line "Error: Input file and output file can't have the same name")
  else
    let (is_open, w) := ifstream_open inputFileName w in
    if negb is_open then
      (1, w |> cerr_line "Error: Couldn't open input file")
    else
      let (is_open, w) := ofstream_open outputFileName w in
      if negb is_open then
        (1, w |> cerr_line "Error: Couldn't open output file")
      else
        let (valid, w) := ValidateArrayName arrayName w in
        if negb valid then (1, w)
        else
          let os := fresh_ostream
                    |> put_cstr "#pragma once" |> endl |> endl
                    |> put_cstr "static const char " |> put_cstr arrayName
                    |> put_cstr ("[] = R" +:+ String DQUOTE "(") in
          let os := string_loop (ifstream_bytes inputFileName w) os in
          let os := os |> put_cstr (")" +:+ String DQUOTE ";") in
          (0, ofstream_close outputFileName os w).

(** ** The hex encoder *)

(** [int] arithmetic: 32 bits, two's complement.  Overflow of the
    element counter (an input of 2^31 bytes or more) is undefined in
    C++; the model wraps, as the usual targets do. *)
Definition int_wrap (z : Z) : Z := (z + 2 ^ 31) mod 2 ^ 32 - 2 ^ 31.

Definition countPerLine : Z := 8.

(** The [while (in >> std::noskipws >> byte)] loop: one byte per turn,
    no whitespace skipped, until the input is exhausted. *)
Fixpoint hex_loop (input : list byte) (count : Z) (isFirstElement : bool)
    (os : ostream) : ostream :=
  match input with
  | [] => os
  | byte :: input' =>
      let os := if negb isFirstElement then os |> put_cstr "," else os in
      let isFirstElement := false in
      let os := if Z.rem count countPerLine =? 0
                then os |> endl |> put_cstr "   " else os in
      let os := os |> put_cstr " 0x" |> setw 2 |> setfill "0"%byte |> hex
                   |> put_int (Byte.to_N byte) in
      hex_loop input' (int_wrap (count + 1)) isFirstElement os
  end.

(** [int ProcessHex(int argc, char** argv)] *)
Definition ProcessHex (argv : list string) (w : World) : Z * World :=
  let inputFileName := arg argv 1 in
  let outputFileName := arg argv 2 in
  let arrayName := arg argv 3 in
  if CompareStrings inputFileName outputFileName =? 0 then
    (1, w |> cerr_line "Error: Input file and output file can't have the same name")
  else
    let (is_open, w) := ifstream_open inputFileName w in
    if negb is_open then
      (1, w |> cerr_line "Error: Couldn't open input file")
    else
      let (is_open, w) := ofstream_open outputFileName w in
      if negb is_open then
        (1, w |> cerr_line "Error: Couldn't open output file")
      else
        let (valid, w) := ValidateArrayName arrayName w in
        if negb valid then (1, w)
        else
          let os := fresh_ostream
                    |> put_cstr "#pragma once" |> endl |> endl
                    |> put_cstr "static const unsigned char "
                    |> put_cstr arrayName |> put_cstr "[] = {" in
          let os := hex_loop (ifstream_bytes inputFileName w) 0 true os in
          let os := os |> endl |> put_cstr "};" in
          (0, ofstream_close outputFileName os w).

(** ** Argument dispatch *)

Definition not_enough_arguments (w : World) : World :=
  w |> cerr_line "ERROR: Not enough arguments"
    |> cerr_line "    Try /? or /help".

Definition too_many_arguments (w : World) : World :=
  w |> cerr_line "ERROR: Too many arguments"
    |> cerr_line "    Try /? or /help".

Definition unrecognized_option (w : World) : World :=
  w |> cerr_line "ERROR: Unrecognized option"
    |> cerr_line "    Try /? or /help".

Definition usage_line (w : World) : World :=
  w |> cout_put "    ./" |> cout_put PROJECT_NAME
    |> cout_put " [option] <input_file> <output_file> <array_name>"
    |> cout_endl.

Definition print_help (w : World) : World :=
  w |> cout_line "Usage:"
    |> usage_line
    |> cout_endl
    |> cout_line "Description:"
    |> cout_line "    This program copies data from the input file into the output file."
    |> cout_line "    If the output file does not exist, it is created; otherwise it is overwritten."
    |> cout_line "    The output file is formatted as a C++ header file."
    |> cout_line "    By default the data is stored into a static const char array as hex values."
    |> cout_endl
    |> cout_line "Options:"
    |> cout_line "    /s or /string           Store the data as a static const char* string instead."
    |> cout_line "    /? or /help             Displays this help message.".

(** [int main(int argc, char** argv)], with [argc = length argv]. *)
Definition main (argv : list string) (w : World) : Z * World :=
  let argc := Z.of_nat (length argv) in
  if argc <? 2 then (1, not_enough_arguments w)
  else if (CompareStrings (arg argv 1) "/?" =? 0)
          || (CompareStrings (arg argv 1) "/help" =? 0) then
    if argc >? 2 then (1, too_many_arguments w)
    else (0, print_help w)
  else if (CompareStrings (arg argv 1) "/s" =? 0)
          || (CompareStrings (arg argv 1) "/string" =? 0) then
    if argc <? 5 then (1, not_enough_arguments w)
    else if argc >? 5 then (1, too_many_arguments w)
    else ProcessString argv w
  else if Ascii.eqb (deref (arg argv 1)) "/" then (1, unrecognized_option w)
  else if argc <? 4 then (1, not_enough_arguments w)
  else if argc >? 4 then (1, too_many_arguments w)
  else ProcessHex argv w.

(** * The notions of the specification *)

(** ** The identifier grammar

    [[A-Za-z_][A-Za-z0-9_]*]: the first character is an underscore or a
    letter, every character is an underscore, a digit or a letter. *)

Definition is_one_of (set : string) (c : ascii) : bool :=
  existsb (Ascii.eqb c) (String.list_ascii_of_string set).

Definition identifier_start (c : ascii) : bool :=
  is_one_of "ABCDEFGHIJKLMNOPQRSTUVWXYZabcdefghijklmnopqrstuvwxyz_" c.

Definition identifier_part (c : ascii) : bool :=
  is_one_of "ABCDEFGHIJKLMNOPQRSTUVWXYZabcdefghijklmnopqrstuvwxyz_0123456789" c.

Definition matches_identifier (s : string) : bool :=
  match s with
  | EmptyString => false
  | String c _ =>
      identifier_start c && forallb identifier_part (String.list_ascii_of_string s)
  end.

(** ** The array format *)

(** A lowercase hexadecimal digit. *)
Definition nibble_char (n : N) : byte :=
  match n with
  | 0 => "0" | 1 => "1" | 2 => "2" | 3 => "3" | 4 => "4" | 5 => "5"
  | 6 => "6" | 7 => "7" | 8 => "8" | 9 => "9" | 10 => "a" | 11 => "b"
  | 12 => "c" | 13 => "d" | 14 => "e" | _ => "f"
  end%N%byte.

(** The two digits of a byte, high nibble first. *)
Definition hex_pair (b : byte) : list byte :=
  [nibble_char (Byte.to_N b / 16); nibble_char (Byte.to_N b mod 16)].

(** The text of the element at 0-based position [i]: a comma unless it
    is the first, a newline and three spaces when [i] is a multiple of
    8, then a space and the literal [0xNN]. *)
Definition element_text (i : nat) (b : byte) : list byte :=
  (if (i =? 0)%nat then [] else bytes ",")
  ++ (if (i mod 8 =? 0)%nat then LF :: bytes "   " else [])
  ++ bytes " 0x" ++ hex_pair b.

Fixpoint array_body_from (i : nat) (input : list byte) : list byte :=
  match input with
  | [] => []
  | b :: rest => element_text i b ++ array_body_from (S i) rest
  end.

Definition array_body (input : list byte) : list byte :=
  array_body_from 0 input.

Definition occurrences (c : byte) (text : list byte) : nat :=
  length (List.filter (Byte.eqb c) text).

(** One turn of the loop of [ProcessHex] at position [i], with the
    flag and the counter replaced by what they stand for; the proofs
    follow the loop through it. *)
Definition hex_turn (i : nat) (byte : byte) (os : ostream) : ostream :=
  let os := if negb (i =? 0)%nat then os |> put_cstr "," else os in
  let os := if (i mod 8 =? 0)%nat then os |> endl |> put_cstr "   " else os in
  os |> put_cstr " 0x" |> setw 2 |> setfill "0"%byte |> hex
     |> put_int (Byte.to_N byte).

(** ** Reading the array back

    The decoder of the round-trip property: the text is cut into tokens
    at commas and white space, tokens that are not of the form [0xNN]
    are dropped, and every [0xNN] is parsed into a byte. *)

Definition is_separator (c : byte) : bool :=
  Byte.eqb c "," || Byte.eqb c " " || Byte.eqb c LF
  || Byte.eqb c x0d || Byte.eqb c x09.

Fixpoint tokens (text : list byte) : list (list byte) :=
  match text with
  | [] => [[]]
  | c :: rest =>
      if is_separator c then [] :: tokens rest
      else match tokens rest with
           | [] => [[c]]
           | token :: more => (c :: token) :: more
           end
  end.

(** The position of a character in a list of digits. *)
Fixpoint position_of (c : byte) (digits : list byte) : option nat :=
  match digits with
  | [] => None
  | d :: digits' =>
      if Byte.eqb c d then Some 0%nat else S <$> position_of c digits'
  end.

(** The value of a hexadecimal digit, in either case. *)
Definition hex_value (c : byte) : option N :=
  N.of_nat <$>
    match position_of c (bytes "0123456789abcdef") with
    | Some v => Some v
    | None => position_of c (bytes "0123456789ABCDEF")
    end.

Definition parse_hex_literal (token : list byte) : option byte :=
  match token with
  | [z; x; h; l] =>
      if Byte.eqb z "0" && Byte.eqb x "x" then
        match hex_value h, hex_value l with
        | Some hi, Some lo => Byte.of_N (16 * hi + lo)
        | _, _ => None
        end
      else None
  | _ => None
  end.

Definition decode_array (text : list byte) : list byte :=
  omap parse_hex_literal (tokens text).

(** ** The payload of the string encoder *)

Definition CR : byte := x0d.

(** The lines of a text, each with its terminator sequence.  A line
    ends at a line feed, at a carriage return followed by a line feed,
    or at a carriage return alone; an unterminated last line counts,
    with the empty sequence for its terminator. *)
Fixpoint terminated_lines (input : list byte) : list (list byte * list byte) :=
  match input with
  | [] => []
  | c :: rest =>
      if Byte.eqb c LF then ([], [LF]) :: terminated_lines rest
      else if Byte.eqb c CR then
        match rest with
        | c' :: rest' =>
            if Byte.eqb c' LF then ([], [CR; LF]) :: terminated_lines rest'
            else ([], [CR]) :: terminated_lines rest
        | [] => [([], [CR])]
        end
      else match terminated_lines rest with
           | [] => [([c], [])]
           | (line, terminator) :: lines => (c :: line, terminator) :: lines
           end
  end.

(** The lines of a text, each with its terminator sequence stripped. *)
Definition text_lines (input : list byte) : list (list byte) :=
  List.map fst (terminated_lines input).

(** A text without a carriage return: its lines end at line feeds. *)
Definition CR_free (input : list byte) : bool :=
  forallb (fun c => negb (Byte.eqb c CR)) input.

(** The input with every newline byte removed. *)
Definition without_LF (input : list byte) : list byte :=
  List.filter (fun c => negb (Byte.eqb c LF)) input.

(** A line with what is left of its terminator sequence once the line
    feed is taken off: nothing, or the carriage return. *)
Definition written_line (line : list byte * list byte) : list byte :=
  fst line ++ without_LF (snd line).

(** ** Outcomes of a run *)

Definition hex_prologue (arrayName : string) : list byte :=
  bytes "#pragma once" ++ [LF; LF]
  ++ bytes "static const unsigned char " ++ bytes arrayName ++ bytes "[] = {".

Definition hex_epilogue : list byte := LF :: bytes "};".

Definition string_prologue (arrayName : string) : list byte :=
  bytes "#pragma once" ++ [LF; LF]
  ++ bytes "static const char " ++ bytes arrayName
  ++ bytes "[] = R" ++ [x22] ++ bytes "(".

Definition string_epilogue : list byte := bytes ")" ++ [x22] ++ bytes ";".

(** The input file can be read and holds [input]; the output file,
    under another name, can be written. *)
Definition files_ready (w : World) (inputFileName outputFileName : string)
    (input : list byte) : Prop :=
  is_cstring inputFileName = true /\ is_cstring outputFileName = true
  /\ inputFileName <> outputFileName
  /\ can_read w inputFileName = true
  /\ files w !! inputFileName = Some input
  /\ can_write w outputFileName = true.

(** The world once [content] is in the file [name]. *)
Definition with_file (name : string) (content : list byte) (w : World) : World :=
  set_files (<[name := content]> (files w)) w.

(** The world once a conversion has opened both files, the input
    first, and [content] is in the output file. *)
Definition converted (inputFileName outputFileName : string)
    (content : list byte) (w : World) : World :=
  with_file outputFileName content
    (set_opened (opened w ++ [inputFileName; outputFileName]) w).

(** The world after the diagnostic of the same-name guard. *)
Definition same_name_error (w : World) : World :=
  w |> cerr_line "Error: Input file and output file can't have the same name".

(** The world after the diagnostic of [ValidateArrayName]. *)
Definition invalid_array_name (w : World) : World :=
  w |> cerr_line "Error: Invalid array name"
    |> cerr_line "    Only the following ASCII characters are allowed:"
    |> cerr_line "        '_'"
    |> cerr_line "        '0' to '9'"
    |> cerr_line "        'A' to 'Z'"
    |> cerr_line "        'a' to 'z'"
    |> cerr_line "    The first character can't be '0' to '9'.".

(** The text of that diagnostic. *)
Definition invalid_name_text : list byte :=
  concat (List.map (fun line => bytes line ++ [LF])
    [ "Error: Invalid array name";
      "    Only the following ASCII characters are allowed:";
      "        '_'";
      "        '0' to '9'";
      "        'A' to 'Z'";
      "        'a' to 'z'";
      "    The first character can't be '0' to '9'." ]).

(** A message on the error stream, followed by the hint; nothing else
    in the world changes. *)
Definition diagnostic (message : string) (w : World) : World :=
  set_cerr (cerr w ++ bytes message ++ [LF]
            ++ bytes "    Try /? or /help" ++ [LF]) w.

(** The help text, line by line. *)
Definition help_lines : list string :=
  [ "Usage:";
    "    ./" +:+ c_str PROJECT_NAME
      +:+ " [option] <input_file> <output_file> <array_name>";
    EmptyString;
    "Description:";
    "    This program copies data from the input file into the output file.";
    "    If the output file does not exist, it is created; otherwise it is overwritten.";
    "    The output file is formatted as a C++ header file.";
    "    By default the data is stored into a static const char array as hex values.";
    EmptyString;
    "Options:";
    "    /s or /string           Store the data as a static const char* string instead.";
    "    /? or /help             Displays this help message." ].

Definition help_text : list byte :=
  concat (List.map (fun line => bytes line ++ [LF]) help_lines).

(** The two spellings of each option. *)
Definition help_option (flag : string) : Prop :=
  flag = "/?" \/ flag = "/help".

Definition string_option (flag : string) : Prop :=
  flag = "/s" \/ flag = "/string".

(** The command lines that ask for the help: the program name and one
    argument, which reads [/?] or [/help] as a C string. *)
Definition help_invocation (argv : list string) : bool :=
  match argv with
  | [_; flag] =>
      bool_decide (c_str flag = "/?") || bool_decide (c_str flag = "/help")
  | _ => false
  end.

(** The world after a run that has tried to open [names], has left
    [written], if anything, in a file, and has put [message] on the
    error stream; nothing else differs from [w]. *)
Definition outcome (w : World) (written : option (string * list byte))
    (names : list string) (message : list byte) : World :=
  {| files := match written with
              | Some (name, content) => <[name := content]> (files w)
              | None => files w
              end;
     can_read := can_read w;
     can_write := can_write w;
     opened := opened w ++ names;
     cout := cout w;
     cerr := cerr w ++ message |}.

(** What a run of an encoder on [inputFileName] and [outputFileName]
    can leave behind: a return value, a file written, the opens tried
    and a message. *)
Definition encoder_outcome (inputFileName outputFileName : string)
    (code : Z) (written : option (string * list byte))
    (names : list string) (message : list byte) : Prop :=
  (code = 0 /\ message = [] \/ code = 1 /\ message <> [])
  /\ (written = None
      \/ exists content,
           written = Some (c_str outputFileName, content)
           /\ c_str inputFileName <> c_str outputFileName)
  /\ (names = [] /\ written = None
      \/ names = [c_str inputFileName] /\ written = None
      \/ names = [c_str inputFileName; c_str outputFileName])
  /\ (code = 0 -> written <> None).

(** A byte of a text file: a newline or a printable ASCII character. *)
Definition text_byte (c : byte) : bool :=
  Byte.eqb c LF || ((32 <=? Byte.to_N c)%N && (Byte.to_N c <=? 126)%N).

Definition is_digit (c : ascii) : bool := is_one_of "0123456789" c.

(** Whether [std::ifstream] opens [name]. *)
Definition input_opens (w : World) (name : string) : bool :=
  can_read w name && bool_decide (is_Some (files w !! name)).

(** ** Sample inputs *)

Definition sample_bytes : list byte := [x00; xff; x0a].

Definition sample_text : list byte :=
  bytes "abc" ++ [LF] ++ bytes "def" ++ [LF].

(** A text whose last line has no terminator. *)
Definition sample_open_text : list byte :=
  bytes "abc" ++ [LF] ++ bytes "def".

(** Two lines that end the DOS way, the last one unterminated. *)
Definition sample_crlf_text : list byte :=
  bytes "ab" ++ [CR; LF] ++ bytes "cd".

(** The bytes 0, 1, 2, ... (modulo 256), [n] of them. *)
Definition counting_bytes (n : nat) : list byte :=
  List.map (fun i => default x00 (Byte.of_N (N.of_nat i mod 256))) (seq 0 n).

(** A world with one input file and no file that can be written. *)
Definition sample_locked_world : World :=
  {| files := {[ "in.bin" := [x00; xff; x0a]; "out.h" := bytes "old content" ]};
     can_read := fun _ => true;
     can_write := fun _ => false;
     opened := [];
     cout := [];
     cerr := [] |}.

Definition sample_world : World :=
  {| files := {[ "in.bin" := sample_bytes; "in.txt" := sample_text;
                 "open.txt" := sample_open_text;
                 "empty.bin" := []; "out.h" := bytes "old content" ]};
     can_read := fun _ => true;
     can_write := fun _ => true;
     opened := [];
     cout := [];
     cerr := [] |}.

(** A world whose input file has DOS line ends. *)
Definition sample_crlf_world : World :=
  {| files := {[ "crlf.txt" := sample_crlf_text; "out.h" := bytes "old content" ]};
     can_read := fun _ => true;
     can_write := fun _ => true;
     opened := [];
     cout := [];
     cerr := [] |}.

(** * Lemmas *)

(** ** Strings as the C code sees them *)

Lemma c_str_cstring s : is_cstring s = true -> c_str s = s.
Proof.
  induction s as [|c s IH]; simpl; [reflexivity|].
  destruct (Ascii.eqb c NUL); simpl; [discriminate|].
  intros H. now rewrite IH.
Qed.

Lemma c_str_is_cstring s : is_cstring (c_str s) = true.
Proof.
  induction s as [|c s IH]; simpl; [reflexivity|].
  destruct (Ascii.eqb c NUL) eqn:E; simpl; [reflexivity|].
  now rewrite E.
Qed.

Lemma deref_c_str s : deref (c_str s) = deref s.
Proof.
  destruct s as [|c s]; simpl; [reflexivity|].
  destruct (Ascii.eqb c NUL) eqn:E; simpl; [|reflexivity].
  apply Ascii.eqb_eq in E. now subst.
Qed.

Lemma int_of_char_inj a b : int_of_char a = int_of_char b -> a = b.
Proof.
  intros H.
  assert (Hn : forall c, (N_of_ascii c < 256)%N) by apply N_ascii_bounded.
  pose proof (Hn a). pose proof (Hn b).
  rewrite <- (ascii_N_embedding a), <- (ascii_N_embedding b). f_equal.
  unfold int_of_char in H.
  destruct char_is_signed; simpl in H;
    repeat match type of H with
           | context [Z.leb ?x ?y] => destruct (Z.leb_spec x y)
           end; lia.
Qed.

Lemma CompareStrings_refl s : CompareStrings s s = 0.
Proof.
  induction s as [|c s IH]; simpl; [reflexivity|].
  rewrite Ascii.eqb_refl.
  destruct (Ascii.eqb c NUL); simpl; [reflexivity | exact IH].
Qed.

(** [CompareStrings] returns 0 exactly on equal C strings. *)
Lemma CompareStrings_0 s1 s2 :
  CompareStrings s1 s2 = 0 <-> c_str s1 = c_str s2.
Proof.
  revert s2. induction s1 as [|c1 s1 IH]; intros [|c2 s2]; simpl.
  - tauto.
  - destruct (Ascii.eqb c2 NUL) eqn:E2; simpl; [tauto|].
    split; [|discriminate]. intros H.
    assert (int_of_char NUL = int_of_char c2) as Hi by (cbn in H |- *; lia).
    apply int_of_char_inj in Hi. subst c2. now rewrite Ascii.eqb_refl in E2.
  - destruct (Ascii.eqb c1 NUL) eqn:E1; simpl; [tauto|].
    split; [|discriminate]. intros H.
    assert (int_of_char c1 = int_of_char NUL) as Hi by (cbn in H |- *; lia).
    apply int_of_char_inj in Hi. subst c1. now rewrite Ascii.eqb_refl in E1.
  - destruct (Ascii.eqb c1 NUL) eqn:E1, (Ascii.eqb c2 NUL) eqn:E2; simpl.
    + tauto.
    + split; [|discriminate]. intros H.
      assert (int_of_char c1 = int_of_char c2) as Hi by lia.
      apply int_of_char_inj in Hi. subst c2. congruence.
    + split; [|discriminate]. intros H.
      assert (int_of_char c1 = int_of_char c2) as Hi by lia.
      apply int_of_char_inj in Hi. subst c2. congruence.
    + destruct (Ascii.eqb c1 c2) eqn:E.
      * apply Ascii.eqb_eq in E. subst c2. rewrite IH.
        split; [intros ->; reflexivity | intros [= ?]; assumption].
      * split.
        -- intros H. assert (int_of_char c1 = int_of_char c2) as Hi by lia.
           apply int_of_char_inj in Hi. subst c2.
           now rewrite Ascii.eqb_refl in E.
        -- intros [= -> _]. now rewrite Ascii.eqb_refl in E.
Qed.

Lemma CompareStrings_cstring s1 s2 :
  is_cstring s1 = true -> is_cstring s2 = true ->
  (CompareStrings s1 s2 =? 0) = bool_decide (s1 = s2).
Proof.
  intros H1 H2. pose proof (CompareStrings_0 s1 s2) as H.
  rewrite (c_str_cstring _ H1), (c_str_cstring _ H2) in H.
  destruct (Z.eqb_spec (CompareStrings s1 s2) 0) as [E|E];
    symmetry; [apply bool_decide_eq_true | apply bool_decide_eq_false]; tauto.
Qed.

(** ** The name validator *)

Ltac by_character c :=
  unfold allowed_character, allowed_first, char_le, int_of_char;
  case char_is_signed;
  destruct c as [[] [] [] [] [] [] [] []]; reflexivity.

Lemma allowed_character_part c : allowed_character c = identifier_part c.
Proof. by_character c. Qed.

Lemma allowed_first_start c : allowed_first c = identifier_start c.
Proof. by_character c. Qed.

Lemma identifier_part_not_NUL c : identifier_part c = true -> Ascii.eqb c NUL = false.
Proof. destruct c as [[] [] [] [] [] [] [] []]; (reflexivity || discriminate). Qed.

Lemma validate_loop_false s : validate_loop s false = false.
Proof.
  induction s as [|c s IH]; simpl; [reflexivity|].
  destruct (Ascii.eqb c NUL); [reflexivity|].
  destruct (allowed_character c); simpl; [exact IH | reflexivity].
Qed.

Lemma validate_loop_forallb s :
  validate_loop s true
  = forallb identifier_part (String.list_ascii_of_string (c_str s)).
Proof.
  induction s as [|c s IH]; simpl; [reflexivity|].
  destruct (Ascii.eqb c NUL); simpl; [reflexivity|].
  rewrite allowed_character_part.
  destruct (identifier_part c); simpl; [exact IH | reflexivity].
Qed.

Lemma ValidateArrayName_c_str arrayName w :
  ValidateArrayName arrayName w
  = if matches_identifier (c_str arrayName) then (true, w)
    else (false, invalid_array_name w).
Proof.
  unfold ValidateArrayName. rewrite allowed_first_start.
  destruct arrayName as [|c s]; [reflexivity|].
  cbn [deref c_str].
  destruct (Ascii.eqb c NUL) eqn:E.
  - apply Ascii.eqb_eq in E. subst c. reflexivity.
  - cbn [matches_identifier].
    destruct (identifier_start c); cbn [negb andb].
    + rewrite validate_loop_forallb. cbn [c_str]. rewrite E.
      destruct (forallb _ _); reflexivity.
    + rewrite validate_loop_false. reflexivity.
Qed.

Lemma ValidateArrayName_cstring arrayName w :
  is_cstring arrayName = true ->
  ValidateArrayName arrayName w
  = if matches_identifier arrayName then (true, w)
    else (false, invalid_array_name w).
Proof.
  intros H. rewrite ValidateArrayName_c_str. now rewrite c_str_cstring.
Qed.

Lemma matches_identifier_cstring s :
  matches_identifier s = true -> is_cstring s = true.
Proof.
  destruct s as [|c s]; [discriminate|]. unfold matches_identifier.
  intros H. apply andb_prop in H as [_ H]. revert H.
  generalize (String c s). clear. intros s.
  induction s as [|c s IH]; simpl; [reflexivity|].
  intros H. apply andb_prop in H as [Hc H].
  rewrite (identifier_part_not_NUL _ Hc). simpl. auto.
Qed.

(** ** Stream lemmas *)

Lemma put_width_0 s os :
  os_width os = 0%nat ->
  put s os = {| os_buf := os_buf os ++ s; os_width := 0;
                os_fill := os_fill os; os_hex := os_hex os |}.
Proof. intros H. unfold put, padded. rewrite H. reflexivity. Qed.

Lemma put_int_hex_byte b buf :
  put_int (Byte.to_N b)
    {| os_buf := buf; os_width := 2; os_fill := "0"%byte; os_hex := true |}
  = {| os_buf := buf ++ hex_pair b; os_width := 0;
       os_fill := "0"%byte; os_hex := true |}.
Proof.
  unfold put_int, put, padded. cbn [os_buf os_width os_fill os_hex].
  f_equal. f_equal. destruct b; reflexivity.
Qed.

(** ** The element counter *)

Lemma int_wrap_congruent z : exists k, int_wrap z = z + 2 ^ 32 * k.
Proof.
  unfold int_wrap. exists (- ((z + 2 ^ 31) / 2 ^ 32)).
  pose proof (Z.div_mod (z + 2 ^ 31) (2 ^ 32)). lia.
Qed.

(** Wrapped or not, the counter is a multiple of 8 exactly when the
    position is. *)
Lemma count_rem_position (i : nat) (count k : Z) :
  count = Z.of_nat i + 2 ^ 32 * k ->
  (Z.rem count countPerLine =? 0) = (i mod 8 =? 0)%nat.
Proof.
  intros ->. unfold countPerLine.
  assert (Hd : (8 | Z.of_nat i + 2 ^ 32 * k) <-> (8 | Z.of_nat i)).
  { change (2 ^ 32) with (8 * 536870912).
    split; intros [q Hq].
    - exists (q - 536870912 * k). lia.
    - exists (q + 536870912 * k). lia. }
  destruct (Z.eqb_spec (Z.rem (Z.of_nat i + 2 ^ 32 * k) 8) 0) as [E|E];
    destruct (Nat.eqb_spec (i mod 8) 0) as [F|F]; try reflexivity; exfalso.
  - apply Z.rem_divide in E; [|lia]. apply Hd in E.
    apply Z.mod_divide in E; [|lia].
    apply F. apply Nat2Z.inj. rewrite Nat2Z.inj_mod. exact E.
  - apply E. apply Z.rem_divide; [lia|]. apply Hd.
    apply Z.mod_divide; [lia|].
    change 8 with (Z.of_nat 8). rewrite <- Nat2Z.inj_mod. now rewrite F.
Qed.

Lemma hex_turn_buf i b os :
  os_width os = 0%nat ->
  os_buf (hex_turn i b os) = os_buf os ++ element_text i b
  /\ os_width (hex_turn i b os) = 0%nat.
Proof.
  intros Hw. destruct os as [buf wd fl hx]. cbn in Hw. subst wd.
  unfold hex_turn, element_text.
  destruct (i mod 8 =? 0)%nat, (i =? 0)%nat;
    unfold put_cstr, put, padded, endl, setw, setfill, hex;
    cbn -[put_int hex_pair Byte.to_N];
    rewrite put_int_hex_byte; cbn -[hex_pair];
    rewrite <- ?app_assoc; auto.
Qed.

Lemma hex_loop_buf input : forall (i : nat) (count : Z) os,
  os_width os = 0%nat ->
  (exists k, count = Z.of_nat i + 2 ^ 32 * k) ->
  os_buf (hex_loop input count (i =? 0)%nat os)
  = os_buf os ++ array_body_from i input
  /\ os_width (hex_loop input count (i =? 0)%nat os) = 0%nat.
Proof.
  induction input as [|b input IH]; intros i count os Hw [k Hk].
  - simpl. rewrite app_nil_r. auto.
  - cbn [hex_loop array_body_from].
    rewrite (count_rem_position i count k Hk).
    change (hex_loop input (int_wrap (count + 1)) false ?os')
      with (hex_loop input (int_wrap (count + 1)) (S i =? 0)%nat os').
    destruct (hex_turn_buf i b os Hw) as [Hb Hw'].
    unfold hex_turn in Hb, Hw'.
    match goal with
    | |- context [hex_loop input _ _ ?os'] =>
        destruct (IH (S i) (int_wrap (count + 1)) os') as [IHb IHw]
    end.
    + exact Hw'.
    + destruct (int_wrap_congruent (count + 1)) as [k' Hk'].
      exists (k + k'). rewrite Hk'. lia.
    + split; [|exact IHw]. rewrite IHb, Hb. now rewrite <- app_assoc.
Qed.

(** ** The loop of the string encoder *)

(** Line by line, the encoder's view and the text's: cut at its
    terminator sequences and written with the line feeds taken off, a
    text is the text without its line feeds. *)
Lemma written_lines_tail input :
  concat (List.map written_line (terminated_lines input)) = without_LF input
  /\ concat (List.map written_line (terminated_lines (tail input)))
     = without_LF (tail input).
Proof.
  induction input as [|c input [IH IHtail]]; [split; reflexivity|].
  split; [|exact IH]. cbn [terminated_lines].
  destruct (Byte.eqb c LF) eqn:Elf.
  - cbn [List.map concat without_LF List.filter]. rewrite Elf. exact IH.
  - assert (Hc : without_LF (c :: input) = c :: without_LF input)
      by (unfold without_LF; cbn [List.filter]; now rewrite Elf).
    rewrite Hc. destruct (Byte.eqb c CR) eqn:Ecr.
    + apply Byte.byte_dec_bl in Ecr. subst c.
      destruct input as [|c' input]; [reflexivity|].
      cbn [tail] in IHtail. destruct (Byte.eqb c' LF) eqn:Elf'.
      * cbn [List.map concat]. rewrite IHtail.
        change (without_LF (c' :: input))
          with (if negb (Byte.eqb c' LF) then c' :: without_LF input
                else without_LF input).
        now rewrite Elf'.
      * cbn [List.map concat]. now rewrite IH.
    + rewrite <- IH.
      destruct (terminated_lines input) as [|[line terminator] lines];
        reflexivity.
Qed.

Lemma written_lines input :
  concat (List.map written_line (terminated_lines input)) = without_LF input.
Proof. apply written_lines_tail. Qed.

(** Without a carriage return in the text, the terminator sequences
    are the line feeds. *)
Lemma concat_text_lines input :
  CR_free input = true -> concat (text_lines input) = without_LF input.
Proof.
  unfold text_lines.
  induction input as [|c input IH]; [reflexivity|].
  cbn [CR_free forallb]. intros [Hc Hfree]%andb_true_iff.
  apply negb_true_iff in Hc. specialize (IH Hfree).
  cbn [terminated_lines without_LF List.filter]. rewrite Hc.
  destruct (Byte.eqb c LF); cbn [negb].
  - exact IH.
  - fold (without_LF input). rewrite <- IH.
    destruct (terminated_lines input) as [|[line terminator] lines];
      reflexivity.
Qed.

Lemma getline_split_without_LF input :
  without_LF input
  = fst (getline_split input) ++ without_LF (snd (getline_split input)).
Proof.
  induction input as [|c input IH]; [reflexivity|].
  cbn [getline_split without_LF List.filter].
  destruct (Byte.eqb c LF); cbn [negb]; [reflexivity|].
  fold (without_LF input). rewrite IH.
  destruct (getline_split input); reflexivity.
Qed.

Lemma string_loop_buf input os :
  os_width os = 0%nat ->
  os_buf (string_loop input os) = os_buf os ++ without_LF input
  /\ os_width (string_loop input os) = 0%nat.
Proof.
  funelim (string_loop input os); intros Hw.
  - match goal with
    | IH : os_width (put line os) = 0%nat -> _ |- _ =>
        destruct IH as [IHb IHw]; [rewrite (put_width_0 _ _ Hw); reflexivity|]
    end.
    split; [|exact IHw]. rewrite IHb, (put_width_0 _ _ Hw).
    cbn [os_buf]. rewrite <- app_assoc. f_equal.
    rewrite (getline_split_without_LF input).
    destruct input as [|c input]; [discriminate|].
    assert (Hsplit : getline_split (c :: input) = (line, rest))
      by (unfold getline in Hget; congruence).
    now rewrite Hsplit.
  - destruct input as [|c input]; [|discriminate].
    cbn. rewrite app_nil_r. auto.
Qed.

(** ** Running the encoders *)

Lemma put_cstr_width_0 s os :
  os_width os = 0%nat ->
  put_cstr s os = {| os_buf := os_buf os ++ bytes (c_str s); os_width := 0;
                     os_fill := os_fill os; os_hex := os_hex os |}.
Proof. apply put_width_0. Qed.

Lemma hex_header_buf arrayName :
  let os := fresh_ostream
            |> put_cstr "#pragma once" |> endl |> endl
            |> put_cstr "static const unsigned char "
            |> put_cstr arrayName |> put_cstr "[] = {" in
  os_buf os = hex_prologue (c_str arrayName) /\ os_width os = 0%nat.
Proof.
  cbv zeta. rewrite !put_cstr_width_0 by reflexivity.
  cbn [os_buf os_width endl fresh_ostream]. unfold hex_prologue.
  rewrite <- !app_assoc. auto.
Qed.

Lemma string_header_buf arrayName :
  let os := fresh_ostream
            |> put_cstr "#pragma once" |> endl |> endl
            |> put_cstr "static const char " |> put_cstr arrayName
            |> put_cstr ("[] = R" +:+ String DQUOTE "(") in
  os_buf os = string_prologue (c_str arrayName) /\ os_width os = 0%nat.
Proof.
  cbv zeta. rewrite !put_cstr_width_0 by reflexivity.
  cbn [os_buf os_width endl fresh_ostream]. unfold string_prologue.
  rewrite <- !app_assoc. auto.
Qed.

Ltac world_fields :=
  cbn [files can_read can_write opened cout cerr set_files set_opened
       set_cout set_cerr].

(** The run of an encoder up to the validation of the array name, when
    the files are ready. *)
Ltac open_both Hi Ho Hne Hr Hf Hw :=
  rewrite (CompareStrings_cstring _ _ Hi Ho), bool_decide_eq_false_2
    by assumption;
  unfold ifstream_open, ofstream_open, log_open, ifstream_bytes,
    ofstream_close;
  rewrite ?(c_str_cstring _ Hi), ?(c_str_cstring _ Ho);
  world_fields;
  rewrite Hr, Hw, Hf, bool_decide_eq_true_2 by eauto;
  cbn [andb negb].

Lemma ProcessHex_converts prog inputFileName outputFileName arrayName w input :
  files_ready w inputFileName outputFileName input ->
  matches_identifier arrayName = true ->
  ProcessHex [prog; inputFileName; outputFileName; arrayName] w
  = (0, converted inputFileName outputFileName
          (hex_prologue arrayName ++ array_body input ++ hex_epilogue) w).
Proof.
  destruct w as [fs rd wr op out err].
  intros (Hi & Ho & Hne & Hr & Hf & Hw) Hn. cbn [files can_read can_write] in Hr, Hf, Hw.
  pose proof (matches_identifier_cstring _ Hn) as Hc.
  unfold ProcessHex.
  change (arg _ 1) with inputFileName.
  change (arg _ 2) with outputFileName.
  change (arg _ 3) with arrayName.
  open_both Hi Ho Hne Hr Hf Hw.
  rewrite (ValidateArrayName_cstring _ _ Hc), Hn. cbn [negb]. world_fields.
  rewrite lookup_insert_ne, Hf by congruence. cbn [default from_option id].
  unfold converted, with_file. world_fields.
  rewrite insert_insert_eq, <- app_assoc.
  destruct (hex_header_buf arrayName) as [Hb Hw0].
  cbv zeta in Hb, Hw0.
  match goal with
  | |- context [hex_loop input 0 true ?os] =>
      destruct (hex_loop_buf input 0%nat 0 os Hw0) as [Lb Lw];
        [exists 0; reflexivity|]
  end.
  change (0 =? 0)%nat with true in Lb, Lw.
  rewrite put_cstr_width_0 by exact Lw.
  cbn [os_buf endl]. rewrite Lb, Hb, (c_str_cstring _ Hc).
  unfold array_body, hex_epilogue. rewrite <- !app_assoc. reflexivity.
Qed.

Lemma ProcessString_converts prog flag inputFileName outputFileName arrayName
    w input :
  files_ready w inputFileName outputFileName input ->
  matches_identifier arrayName = true ->
  ProcessString [prog; flag; inputFileName; outputFileName; arrayName] w
  = (0, converted inputFileName outputFileName
          (string_prologue arrayName ++ without_LF input ++ string_epilogue) w).
Proof.
  destruct w as [fs rd wr op out err].
  intros (Hi & Ho & Hne & Hr & Hf & Hw) Hn. cbn [files can_read can_write] in Hr, Hf, Hw.
  pose proof (matches_identifier_cstring _ Hn) as Hc.
  unfold ProcessString.
  change (arg _ 2) with inputFileName.
  change (arg _ 3) with outputFileName.
  change (arg _ 4) with arrayName.
  open_both Hi Ho Hne Hr Hf Hw.
  rewrite (ValidateArrayName_cstring _ _ Hc), Hn. cbn [negb]. world_fields.
  rewrite lookup_insert_ne, Hf by congruence. cbn [default from_option id].
  unfold converted, with_file. world_fields.
  rewrite insert_insert_eq, <- app_assoc.
  destruct (string_header_buf arrayName) as [Hb Hw0].
  cbv zeta in Hb, Hw0.
  match goal with
  | |- context [string_loop input ?os] =>
      destruct (string_loop_buf input os Hw0) as [Lb Lw]
  end.
  rewrite put_cstr_width_0 by exact Lw.
  cbn [os_buf]. rewrite Lb, Hb, (c_str_cstring _ Hc).
  unfold string_epilogue. rewrite <- !app_assoc. reflexivity.
Qed.

Lemma ProcessHex_same_name prog name arrayName w :
  ProcessHex [prog; name; name; arrayName] w = (1, same_name_error w).
Proof.
  unfold ProcessHex. change (arg _ 1) with name. change (arg _ 2) with name.
  now rewrite CompareStrings_refl.
Qed.

Lemma ProcessString_same_name prog flag name arrayName w :
  ProcessString [prog; flag; name; name; arrayName] w = (1, same_name_error w).
Proof.
  unfold ProcessString. change (arg _ 2) with name. change (arg _ 3) with name.
  now rewrite CompareStrings_refl.
Qed.

Lemma ProcessHex_invalid_name prog inputFileName outputFileName arrayName w input :
  files_ready w inputFileName outputFileName input ->
  is_cstring arrayName = true ->
  matches_identifier arrayName = false ->
  ProcessHex [prog; inputFileName; outputFileName; arrayName] w
  = (1, invalid_array_name (converted inputFileName outputFileName [] w)).
Proof.
  destruct w as [fs rd wr op out err].
  intros (Hi & Ho & Hne & Hr & Hf & Hw) Hc Hn. cbn [files can_read can_write] in Hr, Hf, Hw.
  unfold ProcessHex.
  change (arg _ 1) with inputFileName.
  change (arg _ 2) with outputFileName.
  change (arg _ 3) with arrayName.
  open_both Hi Ho Hne Hr Hf Hw.
  rewrite (ValidateArrayName_cstring _ _ Hc), Hn. cbn [negb].
  unfold converted, with_file. world_fields.
  now rewrite <- app_assoc.
Qed.

Lemma ProcessString_invalid_name prog flag inputFileName outputFileName
    arrayName w input :
  files_ready w inputFileName outputFileName input ->
  is_cstring arrayName = true ->
  matches_identifier arrayName = false ->
  ProcessString [prog; flag; inputFileName; outputFileName; arrayName] w
  = (1, invalid_array_name (converted inputFileName outputFileName [] w)).
Proof.
  destruct w as [fs rd wr op out err].
  intros (Hi & Ho & Hne & Hr & Hf & Hw) Hc Hn. cbn [files can_read can_write] in Hr, Hf, Hw.
  unfold ProcessString.
  change (arg _ 2) with inputFileName.
  change (arg _ 3) with outputFileName.
  change (arg _ 4) with arrayName.
  open_both Hi Ho Hne Hr Hf Hw.
  rewrite (ValidateArrayName_cstring _ _ Hc), Hn. cbn [negb].
  unfold converted, with_file. world_fields.
  now rewrite <- app_assoc.
Qed.

(** ** The round trip of the array body *)

Lemma decode_array_separator c text :
  is_separator c = true -> decode_array (c :: text) = decode_array text.
Proof. intros H. unfold decode_array. cbn [tokens]. now rewrite H. Qed.

Lemma hex_pair_parses b :
  exists h l, hex_pair b = [h; l]
    /\ is_separator h = false /\ is_separator l = false
    /\ parse_hex_literal ["0"; "x"; h; l]%byte = Some b.
Proof. destruct b; do 2 eexists; repeat split. Qed.

Lemma hex_pair_lowercase b :
  exists high low,
    hex_pair b = [high; low]
    /\ In high (bytes "0123456789abcdef")
    /\ In low (bytes "0123456789abcdef")
    /\ parse_hex_literal (bytes "0x" ++ hex_pair b) = Some b.
Proof.
  destruct b; do 2 eexists; (split; [reflexivity|]);
    (split; [cbn; tauto|]); (split; [cbn; tauto | reflexivity]).
Qed.

Lemma decode_array_literal b text :
  text = [] \/ (exists c text', text = c :: text' /\ is_separator c = true) ->
  decode_array ("0" :: "x" :: hex_pair b ++ text)%byte = b :: decode_array text.
Proof.
  destruct (hex_pair_parses b) as (h & l & -> & Hh & Hl & Hp).
  intros [->|(c & text' & -> & Hc)]; unfold decode_array;
    cbn [bytes String.list_byte_of_string app tokens];
    rewrite ?Hh, ?Hl, ?Hc; cbn -[parse_hex_literal];
    rewrite ?Hh, ?Hl, ?Hc; cbn -[parse_hex_literal];
    now rewrite Hp.
Qed.

Lemma array_body_from_S i input :
  array_body_from (S i) input = []
  \/ exists c text', array_body_from (S i) input = c :: text'
                     /\ is_separator c = true.
Proof.
  destruct input as [|b input]; [now left|right].
  cbn [array_body_from]. unfold element_text.
  change (S i =? 0)%nat with false. cbn -[hex_pair array_body_from Nat.modulo].
  eexists _, _. split; reflexivity.
Qed.

Lemma decode_array_body_from input : forall i,
  decode_array (array_body_from i input) = input.
Proof.
  induction input as [|b input IH]; intros i; [reflexivity|].
  cbn [array_body_from]. unfold element_text.
  destruct (i =? 0)%nat, (i mod 8 =? 0)%nat;
    cbn -[hex_pair array_body_from decode_array];
    rewrite ?decode_array_separator by reflexivity;
    rewrite decode_array_literal by apply array_body_from_S;
    now rewrite IH.
Qed.

(** ** Commas and line breaks of the array body *)

Lemma occurrences_app c a b :
  occurrences c (a ++ b) = (occurrences c a + occurrences c b)%nat.
Proof. unfold occurrences. now rewrite List.filter_app, length_app. Qed.

Lemma occurrences_hex_pair b :
  occurrences "," (hex_pair b) = 0%nat /\ occurrences LF (hex_pair b) = 0%nat.
Proof. destruct b; split; reflexivity. Qed.

Lemma occurrences_comma_element i b :
  occurrences "," (element_text i b) = if (i =? 0)%nat then 0%nat else 1%nat.
Proof.
  unfold element_text. rewrite !occurrences_app.
  rewrite (proj1 (occurrences_hex_pair b)).
  destruct (i =? 0)%nat, (i mod 8 =? 0)%nat; reflexivity.
Qed.

Lemma occurrences_LF_element i b :
  occurrences LF (element_text i b) = if (i mod 8 =? 0)%nat then 1%nat else 0%nat.
Proof.
  unfold element_text. rewrite !occurrences_app.
  rewrite (proj2 (occurrences_hex_pair b)).
  destruct (i =? 0)%nat, (i mod 8 =? 0)%nat; reflexivity.
Qed.

Lemma occurrences_comma_from input : forall i,
  occurrences "," (array_body_from (S i) input) = length input.
Proof.
  induction input as [|b input IH]; intros i; [reflexivity|].
  cbn [array_body_from length]. rewrite occurrences_app, IH.
  now rewrite occurrences_comma_element.
Qed.

Lemma occurrences_comma_body input :
  occurrences "," (array_body input) = (length input - 1)%nat.
Proof.
  destruct input as [|b input]; [reflexivity|].
  unfold array_body. cbn [array_body_from length].
  rewrite occurrences_app, occurrences_comma_from, occurrences_comma_element.
  cbn. lia.
Qed.

Lemma line_start_count i :
  ((i + 7) / 8 + (if (i mod 8 =? 0)%nat then 1 else 0) = (S i + 7) / 8)%nat.
Proof.
  pose proof (Nat.div_mod_eq i 8) as Hi.
  pose proof (Nat.mod_upper_bound i 8 ltac:(lia)) as Hr.
  set (q := (i / 8)%nat) in *. set (r := (i mod 8)%nat) in *.
  rewrite Hi.
  destruct (Nat.eqb_spec r 0) as [E|E].
  - rewrite E, Nat.add_0_r.
    replace (8 * q + 7)%nat with (7 + q * 8)%nat by lia.
    replace (S (8 * q) + 7)%nat with (0 + (q + 1) * 8)%nat by lia.
    rewrite !Nat.div_add by lia. reflexivity.
  - replace (8 * q + r + 7)%nat with ((r - 1) + (q + 1) * 8)%nat by lia.
    replace (S (8 * q + r) + 7)%nat with (r + (q + 1) * 8)%nat by lia.
    rewrite !Nat.div_add by lia.
    rewrite !Nat.div_small by lia. lia.
Qed.

Lemma occurrences_LF_from input : forall i,
  ((i + 7) / 8 + occurrences LF (array_body_from i input)
   = (i + length input + 7) / 8)%nat.
Proof.
  induction input as [|b input IH]; intros i.
  - cbn [array_body_from length]. unfold occurrences. cbn.
    now rewrite !Nat.add_0_r.
  - cbn [array_body_from length].
    rewrite occurrences_app, occurrences_LF_element, Nat.add_assoc.
    rewrite line_start_count, IH. f_equal. lia.
Qed.

Lemma occurrences_LF_body input :
  occurrences LF (array_body input) = ((length input + 7) / 8)%nat.
Proof.
  pose proof (occurrences_LF_from input 0) as H.
  exact H.
Qed.

Lemma last_array_body_from input : forall i,
  last (array_body_from i input)
  = (fun b => nibble_char (Byte.to_N b mod 16)) <$> last input.
Proof.
  induction input as [|b input IH]; intros i; [reflexivity|].
  cbn [array_body_from]. rewrite last_app, IH.
  destruct input as [|b' input].
  2: { rewrite last_cons_cons.
       destruct (last (b' :: input)) eqn:E; [reflexivity|].
       apply last_None in E. discriminate. }
  cbn [last fmap option_fmap option_map]. unfold element_text.
  rewrite !app_assoc. unfold hex_pair.
  match goal with
  | |- last (?l ++ [?x; ?y]) = _ =>
      change (l ++ [x; y]) with (l ++ [x] ++ [y]);
      rewrite (app_assoc l [x] [y]), last_snoc
  end.
  reflexivity.
Qed.

Lemma nibble_char_not_comma b : nibble_char (Byte.to_N b mod 16) <> ","%byte.
Proof. destruct b; discriminate. Qed.

Lemma last_array_body_not_comma input : last (array_body input) <> Some ","%byte.
Proof.
  unfold array_body. rewrite last_array_body_from.
  destruct (last input) as [b|]; [|discriminate].
  cbn. intros [= H]. exact (nibble_char_not_comma b H).
Qed.

(** ** Dispatch *)

Lemma not_enough_arguments_diagnostic w :
  not_enough_arguments w = diagnostic "ERROR: Not enough arguments" w.
Proof.
  destruct w as [fs rd wr op out err].
  cbv [not_enough_arguments diagnostic cerr_line set_cerr
       cout cerr files can_read can_write opened].
  f_equal. rewrite <- !app_assoc. reflexivity.
Qed.

Lemma too_many_arguments_diagnostic w :
  too_many_arguments w = diagnostic "ERROR: Too many arguments" w.
Proof.
  destruct w as [fs rd wr op out err].
  cbv [too_many_arguments diagnostic cerr_line set_cerr
       cout cerr files can_read can_write opened].
  f_equal. rewrite <- !app_assoc. reflexivity.
Qed.

Lemma unrecognized_option_diagnostic w :
  unrecognized_option w = diagnostic "ERROR: Unrecognized option" w.
Proof.
  destruct w as [fs rd wr op out err].
  cbv [unrecognized_option diagnostic cerr_line set_cerr
       cout cerr files can_read can_write opened].
  f_equal. rewrite <- !app_assoc. reflexivity.
Qed.

Lemma bytes_app a b : bytes (a +:+ b) = bytes a ++ bytes b.
Proof.
  unfold bytes, String.list_byte_of_string.
  induction a as [|c a IH]; [reflexivity|].
  change (String c a +:+ b) with (String c (a +:+ b)).
  cbn [String.list_ascii_of_string map app]. now rewrite IH.
Qed.

Lemma print_help_text w :
  print_help w = set_cout (cout w ++ help_text) w.
Proof.
  destruct w as [fs rd wr op out err].
  cbv [print_help usage_line cout_line cout_put cout_endl set_cout
       cout cerr files can_read can_write opened].
  f_equal. unfold help_text, help_lines. cbn [List.map concat].
  rewrite !bytes_app.
  change (c_str "Usage:") with "Usage:".
  rewrite <- !app_assoc. reflexivity.
Qed.

(** A comparison with an option literal, on a C string. *)
Lemma compare_option flag literal :
  is_cstring flag = true -> is_cstring literal = true ->
  (CompareStrings flag literal =? 0) = bool_decide (flag = literal).
Proof. apply CompareStrings_cstring. Qed.

(** An argument that does not begin with [/] is none of the options. *)
Lemma compare_no_slash first literal :
  deref first <> "/"%char -> is_cstring literal = true ->
  deref literal = "/"%char ->
  (CompareStrings first literal =? 0) = false.
Proof.
  intros Hf Hc Hl. apply Z.eqb_neq. intros H. apply Hf.
  apply CompareStrings_0 in H. rewrite (c_str_cstring _ Hc) in H.
  rewrite <- deref_c_str, H. exact Hl.
Qed.

Ltac argc_cases :=
  cbn [length] in *;
  repeat match goal with
         | |- context [Z.gtb ?a ?b] => rewrite (Z.gtb_ltb a b)
         | |- context [Z.ltb ?a ?b] => destruct (Z.ltb_spec a b); try lia
         end.

Lemma main_help prog flag rest w :
  help_option flag ->
  main (prog :: flag :: rest) w
  = match rest with
    | [] => (0, print_help w)
    | _ :: _ => (1, too_many_arguments w)
    end.
Proof.
  intros Hopt. unfold main. change (arg _ 1) with flag.
  assert ((CompareStrings flag "/?" =? 0)
          || (CompareStrings flag "/help" =? 0) = true) as ->.
  { destruct Hopt as [-> | ->]; rewrite !compare_option by reflexivity;
      reflexivity. }
  destruct rest; argc_cases; reflexivity.
Qed.

Lemma main_string prog flag rest w :
  string_option flag ->
  main (prog :: flag :: rest) w
  = if (length rest <? 3)%nat then (1, not_enough_arguments w)
    else if (3 <? length rest)%nat then (1, too_many_arguments w)
    else ProcessString (prog :: flag :: rest) w.
Proof.
  intros Hopt. unfold main. change (arg _ 1) with flag.
  assert ((CompareStrings flag "/?" =? 0)
          || (CompareStrings flag "/help" =? 0) = false) as ->.
  { destruct Hopt as [-> | ->]; rewrite !compare_option by reflexivity;
      reflexivity. }
  assert ((CompareStrings flag "/s" =? 0)
          || (CompareStrings flag "/string" =? 0) = true) as ->.
  { destruct Hopt as [-> | ->]; rewrite !compare_option by reflexivity;
      reflexivity. }
  destruct (Nat.ltb_spec (length rest) 3), (Nat.ltb_spec 3 (length rest));
    argc_cases; reflexivity.
Qed.

Lemma main_unrecognized prog flag rest w :
  is_cstring flag = true -> deref flag = "/"%char ->
  ~ help_option flag -> ~ string_option flag ->
  main (prog :: flag :: rest) w = (1, unrecognized_option w).
Proof.
  intros Hc Hs Hh Hso. unfold main. change (arg _ 1) with flag.
  unfold help_option, string_option in *.
  rewrite !compare_option by (assumption || reflexivity).
  rewrite !bool_decide_eq_false_2 by tauto. cbn [orb].
  rewrite Hs. argc_cases; reflexivity.
Qed.

Lemma main_hex prog first rest w :
  deref first <> "/"%char ->
  main (prog :: first :: rest) w
  = if (length rest <? 2)%nat then (1, not_enough_arguments w)
    else if (2 <? length rest)%nat then (1, too_many_arguments w)
    else ProcessHex (prog :: first :: rest) w.
Proof.
  intros Hs. unfold main. change (arg _ 1) with first.
  rewrite !compare_no_slash by (assumption || reflexivity). cbn [orb].
  destruct (Ascii.eqb_spec (deref first) "/"); [contradiction|].
  destruct (Nat.ltb_spec (length rest) 2), (Nat.ltb_spec 2 (length rest));
    argc_cases; reflexivity.
Qed.

Lemma main_short argv w :
  (length argv < 2)%nat -> main argv w = (1, not_enough_arguments w).
Proof.
  intros H. unfold main.
  destruct (Z.ltb_spec (Z.of_nat (length argv)) 2); [reflexivity | lia].
Qed.

(** ** The diagnostic of the validator *)

Lemma invalid_array_name_text w :
  invalid_array_name w = set_cerr (cerr w ++ invalid_name_text) w.
Proof.
  destruct w as [fs rd wr op out err].
  cbv [invalid_array_name cerr_line set_cerr
       cout cerr files can_read can_write opened].
  f_equal. unfold invalid_name_text. cbn [List.map concat].
  change (c_str "Error: Invalid array name") with "Error: Invalid array name".
  rewrite <- !app_assoc. reflexivity.
Qed.

(** ** The round trip of the whole file *)

Lemma tokens_not_nil text : tokens text <> [].
Proof.
  destruct text as [|c text]; cbn [tokens]; [discriminate|].
  destruct (is_separator c); [discriminate|].
  destruct (tokens text); discriminate.
Qed.

Lemma tokens_app_separator pre c rest :
  is_separator c = true ->
  tokens (pre ++ c :: rest) = tokens pre ++ tokens rest.
Proof.
  intros Hc. induction pre as [|a pre IH]; cbn [app tokens].
  - now rewrite Hc.
  - destruct (is_separator a); rewrite IH; [reflexivity|].
    pose proof (tokens_not_nil pre).
    destruct (tokens pre); [contradiction | reflexivity].
Qed.

(** A text that begins with a separator is decoded apart from what
    precedes it. *)
Lemma decode_array_app pre text :
  (exists c rest, text = c :: rest /\ is_separator c = true) ->
  decode_array (pre ++ text) = decode_array pre ++ decode_array text.
Proof.
  intros (c & rest & -> & Hc). unfold decode_array.
  rewrite (tokens_app_separator pre c rest Hc), omap_app.
  f_equal. cbn [tokens]. now rewrite Hc.
Qed.

Lemma tokens_word word :
  forallb (fun c => negb (is_separator c)) word = true -> tokens word = [word].
Proof.
  induction word as [|a word IH]; [reflexivity|].
  cbn [forallb tokens]. intros H. apply andb_prop in H as [Ha H].
  destruct (is_separator a); [discriminate|]. now rewrite (IH H).
Qed.

Lemma identifier_part_not_separator c :
  identifier_part c = true -> is_separator (byte_of_ascii c) = false.
Proof. destruct c as [[] [] [] [] [] [] [] []]; (reflexivity || discriminate). Qed.

Lemma identifier_start_not_zero c :
  identifier_start c = true -> Byte.eqb (byte_of_ascii c) "0" = false.
Proof. destruct c as [[] [] [] [] [] [] [] []]; (reflexivity || discriminate). Qed.

Lemma parse_hex_literal_not_zero b token :
  Byte.eqb b "0" = false -> parse_hex_literal (b :: token) = None.
Proof.
  intros H. destruct token as [|x [|h [|l [|c token]]]];
    cbn [parse_hex_literal]; rewrite ?H; reflexivity.
Qed.

(** The declared name, with its brackets, is not taken for a literal. *)
Lemma decode_array_name arrayName :
  matches_identifier arrayName = true ->
  decode_array (bytes arrayName ++ bytes "[]") = [].
Proof.
  destruct arrayName as [|c s]; [discriminate|]. unfold matches_identifier.
  intros H. apply andb_prop in H as [Hs Hp].
  unfold decode_array. rewrite tokens_word.
  - cbn [omap list_omap]. unfold bytes at 1, String.list_byte_of_string.
    cbn [String.list_ascii_of_string map app].
    now rewrite (parse_hex_literal_not_zero _ _ (identifier_start_not_zero _ Hs)).
  - rewrite forallb_app. apply andb_true_intro. split; [|reflexivity].
    revert Hp. generalize (String c s). clear. intros s.
    unfold bytes, String.list_byte_of_string.
    induction s as [|c s IH]; [reflexivity|].
    cbn [String.list_ascii_of_string forallb map]. intros H.
    apply andb_prop in H as [Hc H].
    now rewrite (identifier_part_not_separator _ Hc), (IH H).
Qed.

Lemma decode_array_prologue arrayName :
  matches_identifier arrayName = true ->
  decode_array (hex_prologue arrayName) = [].
Proof.
  intros Hn.
  assert (E : hex_prologue arrayName
              = bytes "#pragma once"
                ++ LF :: (LF :: bytes "static const unsigned char")
                ++ " "%byte :: (bytes arrayName ++ bytes "[]")
                ++ " "%byte :: bytes "= {").
  { unfold hex_prologue. rewrite <- !app_assoc. reflexivity. }
  rewrite E.
  rewrite (decode_array_app (bytes "#pragma once"))
    by (eexists _, _; split; reflexivity).
  rewrite (decode_array_separator LF) by reflexivity.
  rewrite (decode_array_app (LF :: bytes "static const unsigned char"))
    by (eexists _, _; split; reflexivity).
  rewrite (decode_array_separator " "%byte) by reflexivity.
  rewrite (decode_array_app (bytes arrayName ++ bytes "[]"))
    by (eexists _, _; split; reflexivity).
  rewrite (decode_array_name _ Hn). reflexivity.
Qed.

Lemma array_body_epilogue_separator input :
  exists c rest, array_body input ++ hex_epilogue = c :: rest
                 /\ is_separator c = true.
Proof.
  destruct input as [|b input]; eexists _, _; split; reflexivity.
Qed.

Lemma decode_array_file arrayName input :
  matches_identifier arrayName = true ->
  decode_array (hex_prologue arrayName ++ array_body input ++ hex_epilogue)
  = input.
Proof.
  intros Hn.
  rewrite decode_array_app by apply array_body_epilogue_separator.
  rewrite (decode_array_prologue _ Hn).
  rewrite decode_array_app by (eexists _, _; split; reflexivity).
  unfold array_body. rewrite decode_array_body_from. apply app_nil_r.
Qed.

(** ** The array body, element by element *)

Lemma concat_imap_element_from input : forall i,
  concat (imap (fun k => element_text (i + k)) input) = array_body_from i input.
Proof.
  induction input as [|b input IH]; intros i; [reflexivity|].
  cbn [imap concat array_body_from]. rewrite Nat.add_0_r. f_equal.
  rewrite <- (IH (S i)). f_equal. apply imap_ext. intros k c _.
  unfold compose. now replace (i + S k)%nat with (S i + k)%nat by lia.
Qed.

Lemma concat_imap_element_text input :
  concat (imap element_text input) = array_body input.
Proof. apply (concat_imap_element_from input 0). Qed.

(** * The claims *)

(** C1.  Hex encoder round trip: when the conversion runs, the array
    body it writes between the declaration header and the closing
    brace decodes back (non-hex tokens dropped, every [0xNN] parsed) to
    exactly the bytes of the input, in order, whatever the length of
    the input; and so does the output file as a whole. *)
Theorem hex_round_trip (prog inputFileName outputFileName arrayName : string)
    (w : World) (input : list byte) :
  files_ready w inputFileName outputFileName input ->
  matches_identifier arrayName = true ->
  exists body,
    ProcessHex [prog; inputFileName; outputFileName; arrayName] w
    = (0, converted inputFileName outputFileName
            (hex_prologue arrayName ++ body ++ hex_epilogue) w)
    /\ decode_array body = input
    /\ decode_array (hex_prologue arrayName ++ body ++ hex_epilogue) = input.
Proof.
  intros Hf Hn. exists (array_body input). split; [|split].
  - now apply ProcessHex_converts.
  - apply decode_array_body_from.
  - now apply decode_array_file.
Qed.

(** C2.  Hex encoder element format: for a non-empty input the array
    body is the sequence of the elements' texts, where the element at
    0-based position [i] is [0x] and the two lowercase hexadecimal
    digits of the byte, preceded by a comma unless it is the first and
    by a newline and three spaces of indent when [i] is a multiple of
    8.  So there is one comma less than there are bytes, none after the
    last byte, and one line break for every 8 bytes begun. *)
Theorem hex_element_format (prog inputFileName outputFileName arrayName : string)
    (w : World) (input : list byte) :
  files_ready w inputFileName outputFileName input ->
  matches_identifier arrayName = true ->
  input <> [] ->
  ProcessHex [prog; inputFileName; outputFileName; arrayName] w
  = (0, converted inputFileName outputFileName
          (hex_prologue arrayName ++ concat (imap element_text input)
           ++ hex_epilogue) w)
  /\ occurrences "," (concat (imap element_text input)) = (length input - 1)%nat
  /\ last (concat (imap element_text input)) <> Some ","%byte
  /\ occurrences LF (concat (imap element_text input))
     = ((length input + 7) / 8)%nat
  /\ (forall b, exists high low,
        hex_pair b = [high; low]
        /\ In high (bytes "0123456789abcdef")
        /\ In low (bytes "0123456789abcdef")
        /\ parse_hex_literal (bytes "0x" ++ hex_pair b) = Some b).
Proof.
  intros Hf Hn _.
  rewrite concat_imap_element_text. split; [now apply ProcessHex_converts|].
  split; [apply occurrences_comma_body|].
  split; [apply last_array_body_not_comma|].
  split; [apply occurrences_LF_body | apply hex_pair_lowercase].
Qed.

(** C3.  For every C string, [ValidateArrayName] answers [true]
    exactly when the string matches [[A-Za-z_][A-Za-z0-9_]*] and
    [false] otherwise.  The empty string is rejected: the test on the
    first character reads the terminating null, which is not allowed
    there. *)
Theorem ValidateArrayName_characterization (arrayName : string) (w : World) :
  is_cstring arrayName = true ->
  fst (ValidateArrayName arrayName w) = matches_identifier arrayName
  /\ deref EmptyString = NUL
  /\ allowed_first (deref EmptyString) = false
  /\ fst (ValidateArrayName EmptyString w) = false.
Proof.
  intros H. rewrite (ValidateArrayName_cstring _ _ H).
  split; [destruct (matches_identifier arrayName); reflexivity|].
  split; [reflexivity|].
  split; [rewrite allowed_first_start; reflexivity|].
  rewrite ValidateArrayName_c_str. reflexivity.
Qed.

(** C4.  With [/?] or [/help] as the only argument the program prints
    the help text on standard output and returns 0, the same text for
    both spellings; followed by any further argument, either spelling
    makes it report too many arguments on the error stream and
    return 1. *)
Theorem help_dispatch (prog : string) (w : World) :
  main [prog; "/?"] w = (0, set_cout (cout w ++ help_text) w)
  /\ main [prog; "/help"] w = (0, set_cout (cout w ++ help_text) w)
  /\ (forall extra rest,
        main (prog :: "/?" :: extra :: rest) w
        = (1, diagnostic "ERROR: Too many arguments" w))
  /\ (forall extra rest,
        main (prog :: "/help" :: extra :: rest) w
        = (1, diagnostic "ERROR: Too many arguments" w)).
Proof.
  rewrite <- print_help_text, <- too_many_arguments_diagnostic.
  repeat split; intros; rewrite main_help; try reflexivity;
    unfold help_option; auto.
Qed.

(** C5.  An encoder runs only with exactly the right number of
    arguments: [/s] or [/string] with three further arguments runs the
    string encoder, three arguments of which the first does not begin
    with [/] run the hex encoder.  With fewer arguments the program
    reports that there are not enough and returns 1, with more that
    there are too many and returns 1; a first argument that begins with
    [/] and is none of the options is reported as unrecognized, with
    return value 1.  Every diagnostic goes to the error stream and is
    followed by the hint to try [/?] or [/help]. *)
Theorem argument_dispatch (w : World) :
  (forall prog flag a b c, string_option flag ->
     main [prog; flag; a; b; c] w = ProcessString [prog; flag; a; b; c] w)
  /\ (forall prog a b c, deref a <> "/"%char ->
        main [prog; a; b; c] w = ProcessHex [prog; a; b; c] w)
  /\ (forall argv, (length argv < 2)%nat ->
        main argv w = (1, diagnostic "ERROR: Not enough arguments" w))
  /\ (forall prog flag rest, string_option flag ->
        (length rest < 3)%nat ->
        main (prog :: flag :: rest) w
        = (1, diagnostic "ERROR: Not enough arguments" w))
  /\ (forall prog flag rest, string_option flag ->
        (length rest > 3)%nat ->
        main (prog :: flag :: rest) w
        = (1, diagnostic "ERROR: Too many arguments" w))
  /\ (forall prog first rest, deref first <> "/"%char ->
        (length (first :: rest) < 3)%nat ->
        main (prog :: first :: rest) w
        = (1, diagnostic "ERROR: Not enough arguments" w))
  /\ (forall prog first rest, deref first <> "/"%char ->
        (length (first :: rest) > 3)%nat ->
        main (prog :: first :: rest) w
        = (1, diagnostic "ERROR: Too many arguments" w))
  /\ (forall prog flag rest, is_cstring flag = true ->
        deref flag = "/"%char ->
        ~ help_option flag -> ~ string_option flag ->
        main (prog :: flag :: rest) w
        = (1, diagnostic "ERROR: Unrecognized option" w))
  /\ (forall message,
        cerr (diagnostic message w)
        = cerr w ++ bytes message ++ [LF] ++ bytes "    Try /? or /help" ++ [LF]
        /\ cout (diagnostic message w) = cout w
        /\ files (diagnostic message w) = files w
        /\ opened (diagnostic message w) = opened w).
Proof.
  rewrite <- not_enough_arguments_diagnostic, <- too_many_arguments_diagnostic,
    <- unrecognized_option_diagnostic.
  repeat apply conj.
  - intros prog flag a b c H. now rewrite main_string.
  - intros prog a b c H. now rewrite main_hex.
  - intros argv H. now apply main_short.
  - intros prog flag rest H Hl. rewrite main_string by assumption.
    destruct (Nat.ltb_spec (length rest) 3); [reflexivity | lia].
  - intros prog flag rest H Hl. rewrite main_string by assumption.
    destruct (Nat.ltb_spec (length rest) 3); [lia|].
    destruct (Nat.ltb_spec 3 (length rest)); [reflexivity | lia].
  - intros prog first rest H Hl. rewrite main_hex by assumption.
    cbn [length] in Hl.
    destruct (Nat.ltb_spec (length rest) 2); [reflexivity | lia].
  - intros prog first rest H Hl. rewrite main_hex by assumption.
    cbn [length] in Hl.
    destruct (Nat.ltb_spec (length rest) 2); [lia|].
    destruct (Nat.ltb_spec 2 (length rest)); [reflexivity | lia].
  - intros prog flag rest Hc Hs Hh Hso. now apply main_unrecognized.
  - intros message. repeat split.
Qed.

(** C6.  In both modes, when the input path and the output path are
    the same string the program returns 1 with the same-name diagnostic
    on the error stream, and no file has been opened: the files are as
    they were. *)
Theorem same_name_guard (prog name arrayName : string) (w : World) :
  ProcessHex [prog; name; name; arrayName] w = (1, same_name_error w)
  /\ (forall flag,
        ProcessString [prog; flag; name; name; arrayName] w
        = (1, same_name_error w))
  /\ (deref name <> "/"%char ->
      main [prog; name; name; arrayName] w = (1, same_name_error w))
  /\ main [prog; "/s"; name; name; arrayName] w = (1, same_name_error w)
  /\ main [prog; "/string"; name; name; arrayName] w = (1, same_name_error w)
  /\ files (same_name_error w) = files w
  /\ opened (same_name_error w) = opened w
  /\ cout (same_name_error w) = cout w
  /\ cerr (same_name_error w)
     = cerr w
       ++ bytes "Error: Input file and output file can't have the same name"
       ++ [LF].
Proof.
  repeat apply conj; try reflexivity.
  - apply ProcessHex_same_name.
  - intros flag. apply ProcessString_same_name.
  - intros H. rewrite main_hex by assumption. apply ProcessHex_same_name.
  - rewrite main_string by (left; reflexivity). apply ProcessString_same_name.
  - rewrite main_string by (right; reflexivity). apply ProcessString_same_name.
Qed.

(** C7 (amended).  String encoder payload: what is written between
    the raw-string delimiters is the concatenation of the lines of the
    input with nothing put between them, each line without the line
    feed of its terminator sequence; a carriage return of the
    terminator is kept.  For an input without carriage returns this is
    the concatenation of the lines with their terminator sequences
    stripped.  The input [abc], line feed, [def], line feed has the two
    lines [abc] and [def] and the payload [abcdef]. *)
Theorem string_payload_lines (prog flag inputFileName outputFileName
    arrayName : string) (w : World) (input : list byte) :
  files_ready w inputFileName outputFileName input ->
  matches_identifier arrayName = true ->
  ProcessString [prog; flag; inputFileName; outputFileName; arrayName] w
  = (0, converted inputFileName outputFileName
          (string_prologue arrayName
           ++ concat (List.map written_line (terminated_lines input))
           ++ string_epilogue) w)
  /\ (CR_free input = true ->
      ProcessString [prog; flag; inputFileName; outputFileName; arrayName] w
      = (0, converted inputFileName outputFileName
              (string_prologue arrayName ++ concat (text_lines input)
               ++ string_epilogue) w))
  /\ (input = bytes "abc" ++ [LF] ++ bytes "def" ++ [LF] ->
      text_lines input = [bytes "abc"; bytes "def"]
      /\ ProcessString [prog; flag; inputFileName; outputFileName; arrayName] w
         = (0, converted inputFileName outputFileName
                 (string_prologue arrayName ++ bytes "abcdef"
                  ++ string_epilogue) w)).
Proof.
  intros Hf Hn.
  pose proof (ProcessString_converts prog flag _ _ _ _ _ Hf Hn) as Hrun.
  split; [now rewrite written_lines|].
  split; [intros Hfree; now rewrite concat_text_lines|].
  intros ->. split; [reflexivity | exact Hrun].
Qed.

(** C8.  Truncate before validate: in both modes the output file is
    opened, hence emptied, before the array name is checked.  With an
    invalid array name the program returns 1 and writes nothing to the
    output file, but whatever the file held before is gone; the other
    files are untouched and the validator's diagnostic is on the error
    stream. *)
Theorem truncate_before_validate (prog flag inputFileName outputFileName
    arrayName : string) (w : World) (input : list byte) :
  files_ready w inputFileName outputFileName input ->
  is_cstring arrayName = true ->
  matches_identifier arrayName = false ->
  exists w',
    ProcessHex [prog; inputFileName; outputFileName; arrayName] w = (1, w')
    /\ ProcessString [prog; flag; inputFileName; outputFileName; arrayName] w
       = (1, w')
    /\ opened w' = opened w ++ [inputFileName; outputFileName]
    /\ files w' !! outputFileName = Some []
    /\ (forall other, other <> outputFileName ->
          files w' !! other = files w !! other)
    /\ cout w' = cout w
    /\ cerr w' = cerr w ++ invalid_name_text.
Proof.
  intros Hf Hc Hn.
  exists (invalid_array_name (converted inputFileName outputFileName [] w)).
  split; [now apply (ProcessHex_invalid_name _ _ _ _ _ input)|].
  split; [now apply (ProcessString_invalid_name _ _ _ _ _ _ input)|].
  rewrite invalid_array_name_text. unfold converted, with_file.
  cbn [files opened cout cerr set_cerr set_files set_opened].
  split; [reflexivity|].
  split; [apply lookup_insert_eq|].
  split; [|auto].
  intros other Ho. now apply lookup_insert_ne.
Qed.

(** C9.  Zero-byte hex input: for an empty input file the output is
    the include guard, the blank line, the array declaration header
    and, after a single line break, the closing brace with its
    semicolon; the array body is empty. *)
Theorem hex_empty_input (prog inputFileName outputFileName arrayName : string)
    (w : World) :
  files_ready w inputFileName outputFileName [] ->
  matches_identifier arrayName = true ->
  ProcessHex [prog; inputFileName; outputFileName; arrayName] w
  = (0, converted inputFileName outputFileName
          (bytes "#pragma once" ++ [LF] ++ [LF]
           ++ bytes "static const unsigned char " ++ bytes arrayName
           ++ bytes "[] = {" ++ [LF] ++ bytes "};") w).
Proof.
  intros Hf Hn. rewrite (ProcessHex_converts _ _ _ _ _ [] Hf Hn).
  unfold hex_prologue, hex_epilogue, array_body.
  rewrite <- !app_assoc. reflexivity.
Qed.

(** C10.  The string encoder keeps an unterminated last line: for
    every input the payload between the raw-string delimiters is the
    input with every newline byte (0x0A) removed, and nothing else
    removed. *)
Theorem string_payload_without_LF (prog flag inputFileName outputFileName
    arrayName : string) (w : World) (input : list byte) :
  files_ready w inputFileName outputFileName input ->
  matches_identifier arrayName = true ->
  ProcessString [prog; flag; inputFileName; outputFileName; arrayName] w
  = (0, converted inputFileName outputFileName
          (string_prologue arrayName
           ++ List.filter (fun c => negb (Byte.eqb c x0a)) input
           ++ string_epilogue) w).
Proof. intros Hf Hn. now apply ProcessString_converts. Qed.

(** * Further properties of the code *)

(** ** [CompareStrings] *)

(** X1.  [CompareStrings] returns 0 exactly when the two arguments are
    the same C string, i.e. agree up to their first null; whatever
    follows a null is never read. *)
Theorem CompareStrings_zero_iff_equal (string1 string2 : string) :
  CompareStrings string1 string2 = 0 <-> c_str string1 = c_str string2.
Proof. apply CompareStrings_0. Qed.

(** X2.  Swapping the arguments of [CompareStrings] negates the
    result. *)
Theorem CompareStrings_swap (string1 string2 : string) :
  CompareStrings string2 string1 = - CompareStrings string1 string2.
Proof.
  revert string2.
  induction string1 as [|c1 s1 IH]; intros [|c2 s2]; cbn [CompareStrings deref next].
  - reflexivity.
  - rewrite Ascii.eqb_refl. cbn [negb andb].
    destruct (Ascii.eqb c2 NUL); cbn [negb andb]; [reflexivity | lia].
  - rewrite Ascii.eqb_refl. cbn [negb andb].
    destruct (Ascii.eqb c1 NUL); cbn [negb andb]; [reflexivity | lia].
  - rewrite (Ascii.eqb_sym c2 c1).
    destruct (Ascii.eqb c1 NUL), (Ascii.eqb c2 NUL), (Ascii.eqb c1 c2);
      cbn [negb andb]; try reflexivity; try lia.
    apply IH.
Qed.

(** X3.  After a common prefix, [CompareStrings] returns the difference
    of the first two characters that differ (the terminator counting
    as a character): the integer of the one in [string1] minus the
    integer of the one in [string2]. *)
Theorem CompareStrings_first_difference (prefix rest1 rest2 : string) :
  is_cstring prefix = true ->
  deref rest1 <> deref rest2 ->
  CompareStrings (prefix +:+ rest1) (prefix +:+ rest2)
  = int_of_char (deref rest1) - int_of_char (deref rest2).
Proof.
  intros Hp Hd. induction prefix as [|c p IH].
  - change (EmptyString +:+ rest1) with rest1.
    change (EmptyString +:+ rest2) with rest2.
    destruct (Ascii.eqb_spec (deref rest1) (deref rest2)) as [E|_];
      [contradiction|].
    destruct rest1 as [|c1 r1]; cbn [CompareStrings deref] in *.
    + destruct (Ascii.eqb_spec (deref rest2) NUL) as [E|_];
        [congruence|]. now rewrite andb_false_r.
    + destruct (Ascii.eqb_spec c1 (deref rest2)) as [E|_]; [contradiction|].
      rewrite andb_false_r.
      destruct (Ascii.eqb_spec c1 NUL) as [E1|_];
        destruct (Ascii.eqb_spec (deref rest2) NUL) as [E2|_];
        cbn [andb]; try reflexivity. congruence.
  - cbn [is_cstring] in Hp. apply andb_prop in Hp as [Hc Hp].
    change (String c p +:+ rest1) with (String c (p +:+ rest1)).
    change (String c p +:+ rest2) with (String c (p +:+ rest2)).
    cbn [CompareStrings deref next]. rewrite Hc, Ascii.eqb_refl.
    cbn [andb]. exact (IH Hp).
Qed.

(** ** What a run can do to the world *)

Lemma outcome_after_open fs rd wr op out err name content message :
  {| files := <[name := content]> (<[name := []]> fs); can_read := rd;
     can_write := wr; opened := op; cout := out; cerr := err ++ message |}
  = {| files := <[name := content]> fs; can_read := rd;
       can_write := wr; opened := op; cout := out; cerr := err ++ message |}.
Proof. now rewrite insert_insert_eq. Qed.

Ltac outcome_facts :=
  repeat match goal with |- _ /\ _ => split end;
  first [ left; split; reflexivity
        | right; split; [reflexivity | discriminate]
        | left; reflexivity
        | right; eexists; split; [reflexivity | assumption]
        | left; split; reflexivity
        | right; left; split; reflexivity
        | right; right; reflexivity
        | intros; discriminate ].

Lemma ProcessHex_frame argv w :
  exists code written names message,
    ProcessHex argv w = (code, outcome w written names message)
    /\ encoder_outcome (arg argv 1) (arg argv 2) code written names message.
Proof.
  destruct w as [fs rd wr op out err].
  unfold ProcessHex, encoder_outcome.
  set (inputFileName := arg argv 1). set (outputFileName := arg argv 2).
  set (arrayName := arg argv 3).
  destruct (Z.eqb_spec (CompareStrings inputFileName outputFileName) 0)
    as [E|E].
  { exists 1, None, [],
      (bytes (c_str "Error: Input file and output file can't have the same name")
       ++ [LF]).
    unfold outcome, cerr_line, set_cerr. world_fields. rewrite app_nil_r.
    split; [reflexivity | outcome_facts]. }
  assert (Hne : c_str inputFileName <> c_str outputFileName)
    by (intros H; apply E; now apply CompareStrings_0).
  unfold ifstream_open, ofstream_open, log_open. world_fields.
  destruct (rd (c_str inputFileName)
            && bool_decide (is_Some (fs !! c_str inputFileName))).
  2: { cbn [negb].
       exists 1, None, [c_str inputFileName],
         (bytes (c_str "Error: Couldn't open input file") ++ [LF]).
       unfold outcome, cerr_line, set_cerr. world_fields.
       split; [reflexivity | outcome_facts]. }
  cbn [negb]. destruct (wr (c_str outputFileName)).
  2: { cbn [negb].
       exists 1, None, [c_str inputFileName; c_str outputFileName],
         (bytes (c_str "Error: Couldn't open output file") ++ [LF]).
       unfold outcome, cerr_line, set_cerr. world_fields.
       rewrite <- app_assoc.
       split; [reflexivity | outcome_facts]. }
  cbn [negb]. rewrite ValidateArrayName_c_str.
  destruct (matches_identifier (c_str arrayName)); cbn [negb].
  - eexists 0, (Some (c_str outputFileName, _)),
      [c_str inputFileName; c_str outputFileName], [].
    unfold outcome, ofstream_close, set_files. world_fields.
    rewrite <- app_assoc, app_nil_r, insert_insert_eq.
    split; [reflexivity | outcome_facts].
  - exists 1, (Some (c_str outputFileName, [])),
      [c_str inputFileName; c_str outputFileName], invalid_name_text.
    rewrite invalid_array_name_text.
    unfold outcome, set_cerr, set_files. world_fields.
    rewrite <- app_assoc.
    split; [reflexivity | outcome_facts].
Qed.

Lemma ProcessString_frame argv w :
  exists code written names message,
    ProcessString argv w = (code, outcome w written names message)
    /\ encoder_outcome (arg argv 2) (arg argv 3) code written names message.
Proof.
  destruct w as [fs rd wr op out err].
  unfold ProcessString, encoder_outcome.
  set (inputFileName := arg argv 2). set (outputFileName := arg argv 3).
  set (arrayName := arg argv 4).
  destruct (Z.eqb_spec (CompareStrings inputFileName outputFileName) 0)
    as [E|E].
  { exists 1, None, [],
      (bytes (c_str "Error: Input file and output file can't have the same name")
       ++ [LF]).
    unfold outcome, cerr_line, set_cerr. world_fields. rewrite app_nil_r.
    split; [reflexivity | outcome_facts]. }
  assert (Hne : c_str inputFileName <> c_str outputFileName)
    by (intros H; apply E; now apply CompareStrings_0).
  unfold ifstream_open, ofstream_open, log_open. world_fields.
  destruct (rd (c_str inputFileName)
            && bool_decide (is_Some (fs !! c_str inputFileName))).
  2: { cbn [negb].
       exists 1, None, [c_str inputFileName],
         (bytes (c_str "Error: Couldn't open input file") ++ [LF]).
       unfold outcome, cerr_line, set_cerr. world_fields.
       split; [reflexivity | outcome_facts]. }
  cbn [negb]. destruct (wr (c_str outputFileName)).
  2: { cbn [negb].
       exists 1, None, [c_str inputFileName; c_str outputFileName],
         (bytes (c_str "Error: Couldn't open output file") ++ [LF]).
       unfold outcome, cerr_line, set_cerr. world_fields.
       rewrite <- app_assoc.
       split; [reflexivity | outcome_facts]. }
  cbn [negb]. rewrite ValidateArrayName_c_str.
  destruct (matches_identifier (c_str arrayName)); cbn [negb].
  - eexists 0, (Some (c_str outputFileName, _)),
      [c_str inputFileName; c_str outputFileName], [].
    unfold outcome, ofstream_close, set_files. world_fields.
    rewrite <- app_assoc, app_nil_r, insert_insert_eq.
    split; [reflexivity | outcome_facts].
  - exists 1, (Some (c_str outputFileName, [])),
      [c_str inputFileName; c_str outputFileName], invalid_name_text.
    rewrite invalid_array_name_text.
    unfold outcome, set_cerr, set_files. world_fields.
    rewrite <- app_assoc.
    split; [reflexivity | outcome_facts].
Qed.

Lemma diagnostic_outcome message w :
  diagnostic message w
  = outcome w None []
      (bytes message ++ [LF] ++ bytes "    Try /? or /help" ++ [LF]).
Proof.
  destruct w as [fs rd wr op out err].
  unfold diagnostic, outcome, set_cerr. world_fields. now rewrite app_nil_r.
Qed.

Ltac diagnostic_case :=
  eexists 1, None, _, _; split; [reflexivity|];
  split; [right; split; [reflexivity | discriminate] | left; reflexivity].

(** Every run of [main] either prints the help, or leaves an
    [outcome]: a return value of 0 with nothing on the error stream, or
    of 1 with a message there; a file written is the one the second or
    the third argument names. *)
Lemma main_frame argv w :
  (exists prog flag,
      argv = [prog; flag] /\ (c_str flag = "/?" \/ c_str flag = "/help")
      /\ main argv w = (0, set_cout (cout w ++ help_text) w))
  \/ exists code written names message,
       main argv w = (code, outcome w written names message)
       /\ (code = 0 /\ message = [] \/ code = 1 /\ message <> [])
       /\ (written = None
           \/ exists content,
                written = Some (c_str (arg argv 2), content)
                \/ written = Some (c_str (arg argv 3), content)).
Proof.
  unfold main.
  rewrite not_enough_arguments_diagnostic, too_many_arguments_diagnostic,
    unrecognized_option_diagnostic, print_help_text, !diagnostic_outcome.
  destruct (Z.ltb_spec (Z.of_nat (length argv)) 2) as [Hlen|Hlen];
    [right; diagnostic_case|].
  destruct (Z.eqb_spec (CompareStrings (arg argv 1) "/?") 0) as [Eq|Eq];
    [|destruct (Z.eqb_spec (CompareStrings (arg argv 1) "/help") 0) as [Eh|Eh]];
    cbn [orb].
  1, 2: rewrite Z.gtb_ltb;
    destruct (Z.ltb_spec 2 (Z.of_nat (length argv))) as [Hmore|Hmore];
    [ right; diagnostic_case
    | left; destruct argv as [|prog [|flag [|extra rest]]];
      cbn [length] in *; try lia;
      exists prog, flag; split; [reflexivity|];
      change (arg [prog; flag] 1) with flag in *;
      split; [|reflexivity] ].
  1: { left. now apply CompareStrings_0 in Eq. }
  1: { right. now apply CompareStrings_0 in Eh. }
  right.
  destruct ((CompareStrings (arg argv 1) "/s" =? 0)
            || (CompareStrings (arg argv 1) "/string" =? 0)).
  { destruct (Z.ltb_spec (Z.of_nat (length argv)) 5); [diagnostic_case|].
    rewrite Z.gtb_ltb.
    destruct (Z.ltb_spec 5 (Z.of_nat (length argv))); [diagnostic_case|].
    destruct (ProcessString_frame argv w)
      as (code & written & names & message & Hrun & Hcode & Hw & _).
    eexists _, _, _, _. split; [exact Hrun|]. split; [exact Hcode|].
    destruct Hw as [-> | (content & -> & _)]; [now left | right; eauto]. }
  destruct (Ascii.eqb (deref (arg argv 1)) "/"); [diagnostic_case|].
  destruct (Z.ltb_spec (Z.of_nat (length argv)) 4); [diagnostic_case|].
  rewrite Z.gtb_ltb.
  destruct (Z.ltb_spec 4 (Z.of_nat (length argv))); [diagnostic_case|].
  destruct (ProcessHex_frame argv w)
    as (code & written & names & message & Hrun & Hcode & Hw & _).
  eexists _, _, _, _. split; [exact Hrun|]. split; [exact Hcode|].
  destruct Hw as [-> | (content & -> & _)]; [now left | right; eauto].
Qed.

(** X4.  When the input file cannot be opened (it may not be read, or
    it does not exist), both encoders return 1 with the message that
    the input file could not be opened.  Only the input file has been
    tried: the output file is neither created nor emptied, and the
    array name is not looked at. *)
Theorem input_open_failure (prog flag inputFileName outputFileName
    arrayName : string) (w : World) :
  is_cstring inputFileName = true -> is_cstring outputFileName = true ->
  inputFileName <> outputFileName ->
  can_read w inputFileName = false \/ files w !! inputFileName = None ->
  ProcessHex [prog; inputFileName; outputFileName; arrayName] w
  = (1, outcome w None [inputFileName]
          (bytes "Error: Couldn't open input file" ++ [LF]))
  /\ ProcessString [prog; flag; inputFileName; outputFileName; arrayName] w
     = (1, outcome w None [inputFileName]
             (bytes "Error: Couldn't open input file" ++ [LF])).
Proof.
  intros Hi Ho Hne Hno.
  assert (Hopen : can_read w inputFileName
                  && bool_decide (is_Some (files w !! inputFileName)) = false).
  { destruct Hno as [-> | ->]; [reflexivity|].
    rewrite bool_decide_eq_false_2 by (intros [x Hx]; discriminate).
    apply andb_false_r. }
  destruct w as [fs rd wr op out err]. cbn [files can_read] in Hopen.
  unfold ProcessHex, ProcessString.
  change (arg [prog; inputFileName; outputFileName; arrayName] 1)
    with inputFileName.
  change (arg [prog; inputFileName; outputFileName; arrayName] 2)
    with outputFileName.
  change (arg [prog; flag; inputFileName; outputFileName; arrayName] 2)
    with inputFileName.
  change (arg [prog; flag; inputFileName; outputFileName; arrayName] 3)
    with outputFileName.
  rewrite (CompareStrings_cstring _ _ Hi Ho), bool_decide_eq_false_2
    by assumption.
  unfold ifstream_open, log_open. rewrite (c_str_cstring _ Hi).
  world_fields. rewrite Hopen. cbn [negb].
  unfold outcome, cerr_line, set_cerr. world_fields. split; reflexivity.
Qed.

(** X5.  When the input file opens but the output file cannot be
    opened, both encoders return 1 with the message that the output
    file could not be opened; both files have been tried, in that
    order, no file has changed, and the array name is not looked at
    (an invalid one draws no diagnostic). *)
Theorem output_open_failure (prog flag inputFileName outputFileName
    arrayName : string) (w : World) (input : list byte) :
  is_cstring inputFileName = true -> is_cstring outputFileName = true ->
  inputFileName <> outputFileName ->
  can_read w inputFileName = true -> files w !! inputFileName = Some input ->
  can_write w outputFileName = false ->
  ProcessHex [prog; inputFileName; outputFileName; arrayName] w
  = (1, outcome w None [inputFileName; outputFileName]
          (bytes "Error: Couldn't open output file" ++ [LF]))
  /\ ProcessString [prog; flag; inputFileName; outputFileName; arrayName] w
     = (1, outcome w None [inputFileName; outputFileName]
             (bytes "Error: Couldn't open output file" ++ [LF])).
Proof.
  intros Hi Ho Hne Hr Hf Hw.
  destruct w as [fs rd wr op out err]. cbn [files can_read can_write] in *.
  unfold ProcessHex, ProcessString.
  change (arg [prog; inputFileName; outputFileName; arrayName] 1)
    with inputFileName.
  change (arg [prog; inputFileName; outputFileName; arrayName] 2)
    with outputFileName.
  change (arg [prog; flag; inputFileName; outputFileName; arrayName] 2)
    with inputFileName.
  change (arg [prog; flag; inputFileName; outputFileName; arrayName] 3)
    with outputFileName.
  rewrite (CompareStrings_cstring _ _ Hi Ho), bool_decide_eq_false_2
    by assumption.
  unfold ifstream_open, ofstream_open, log_open.
  rewrite (c_str_cstring _ Hi), (c_str_cstring _ Ho).
  world_fields. rewrite Hr, Hf, Hw, bool_decide_eq_true_2 by eauto.
  cbn [andb negb].
  unfold outcome, cerr_line, set_cerr. world_fields.
  rewrite <- app_assoc. split; reflexivity.
Qed.

(** X6.  [ValidateArrayName] changes the world only by its diagnostic:
    when it answers [true] the world is as before, when it answers
    [false] its seven lines are on the error stream and nothing else
    has changed. *)
Theorem ValidateArrayName_effect (arrayName : string) (w : World) :
  snd (ValidateArrayName arrayName w)
  = if fst (ValidateArrayName arrayName w) then w
    else outcome w None [] invalid_name_text.
Proof.
  rewrite ValidateArrayName_c_str.
  destruct (matches_identifier (c_str arrayName)); cbn [fst snd];
    [reflexivity|].
  rewrite invalid_array_name_text. destruct w as [fs rd wr op out err].
  unfold outcome, set_cerr. world_fields. now rewrite app_nil_r.
Qed.

(** X7.  The return value of [main] is 0 or 1, and it tells whether a
    diagnostic was printed: with 0 the error stream is as before, with
    1 a non-empty message has been appended to it. *)
Theorem main_return_value_and_error_stream (argv : list string) (w : World) :
  fst (main argv w) = 0 /\ cerr (snd (main argv w)) = cerr w
  \/ fst (main argv w) = 1
     /\ exists message,
          message <> [] /\ cerr (snd (main argv w)) = cerr w ++ message.
Proof.
  destruct (main_frame argv w)
    as [(prog & flag & _ & _ & ->)
       | (code & written & names & message & -> & [[-> ->] | [-> Hm]] & _)];
    cbn [fst snd cerr set_cout outcome].
  - left. auto.
  - left. split; [reflexivity | apply app_nil_r].
  - right. split; [reflexivity|]. exists message. auto.
Qed.

Lemma main_help_invocation argv w :
  help_invocation argv = true ->
  main argv w = (0, set_cout (cout w ++ help_text) w).
Proof.
  destruct argv as [|prog [|flag [|extra rest]]]; try discriminate.
  cbn [help_invocation]. intros Hflag.
  rewrite <- print_help_text. unfold main.
  change (arg [prog; flag] 1) with flag.
  assert ((CompareStrings flag "/?" =? 0)
          || (CompareStrings flag "/help" =? 0) = true) as ->.
  { apply orb_true_iff in Hflag. apply orb_true_iff.
    destruct Hflag as [H | H]; apply bool_decide_eq_true in H;
      [left | right]; apply Z.eqb_eq, CompareStrings_0; exact H. }
  reflexivity.
Qed.

Lemma help_text_not_empty : help_text <> [].
Proof. unfold help_text, help_lines. cbn [List.map concat]. discriminate. Qed.

(** X8.  Standard output carries the help text and nothing else.  When
    the arguments are the program name and [/?] or [/help], a run of
    [main] appends the help text, which is not empty, to standard
    output; for every other argument list standard output is left as
    it was. *)
Theorem main_standard_output (argv : list string) (w : World) :
  cout (snd (main argv w))
  = (if help_invocation argv then cout w ++ help_text else cout w)
  /\ help_text <> [].
Proof.
  split; [|exact help_text_not_empty].
  destruct (help_invocation argv) eqn:Hhelp.
  - now rewrite main_help_invocation.
  - destruct (main_frame argv w)
      as [(prog & flag & -> & Hflag & _)
         | (code & written & names & message & -> & _ & _)];
      [|reflexivity].
    cbn [help_invocation] in Hhelp. apply orb_false_iff in Hhelp.
    destruct Hhelp as [Hq%bool_decide_eq_false Hh%bool_decide_eq_false].
    tauto.
Qed.

(** ** Success *)

Lemma ProcessHex_return_value argv w :
  fst (ProcessHex argv w)
  = if (CompareStrings (arg argv 1) (arg argv 2) =? 0) then 1
    else if negb (input_opens w (c_str (arg argv 1))) then 1
    else if negb (can_write w (c_str (arg argv 2))) then 1
    else if matches_identifier (c_str (arg argv 3)) then 0 else 1.
Proof.
  destruct w as [fs rd wr op out err]. unfold ProcessHex, input_opens.
  destruct (CompareStrings (arg argv 1) (arg argv 2) =? 0); [reflexivity|].
  unfold ifstream_open, ofstream_open, log_open. world_fields.
  destruct (rd (c_str (arg argv 1)) && _); [|reflexivity]. cbn [negb].
  destruct (wr (c_str (arg argv 2))); [|reflexivity]. cbn [negb].
  rewrite ValidateArrayName_c_str.
  destruct (matches_identifier (c_str (arg argv 3))); reflexivity.
Qed.

Lemma ProcessString_return_value argv w :
  fst (ProcessString argv w)
  = if (CompareStrings (arg argv 2) (arg argv 3) =? 0) then 1
    else if negb (input_opens w (c_str (arg argv 2))) then 1
    else if negb (can_write w (c_str (arg argv 3))) then 1
    else if matches_identifier (c_str (arg argv 4)) then 0 else 1.
Proof.
  destruct w as [fs rd wr op out err]. unfold ProcessString, input_opens.
  destruct (CompareStrings (arg argv 2) (arg argv 3) =? 0); [reflexivity|].
  unfold ifstream_open, ofstream_open, log_open. world_fields.
  destruct (rd (c_str (arg argv 2)) && _); [|reflexivity]. cbn [negb].
  destruct (wr (c_str (arg argv 3))); [|reflexivity]. cbn [negb].
  rewrite ValidateArrayName_c_str.
  destruct (matches_identifier (c_str (arg argv 4))); reflexivity.
Qed.

(** X11.  An encoder returns 0 exactly when the two paths are
    different C strings, the input file opens, the output file opens
    and the array name is an identifier; in every other case it
    returns 1. *)
Theorem encoder_succeeds_iff (argv : list string) (w : World) :
  (fst (ProcessHex argv w) = 0
   <-> c_str (arg argv 1) <> c_str (arg argv 2)
       /\ input_opens w (c_str (arg argv 1)) = true
       /\ can_write w (c_str (arg argv 2)) = true
       /\ matches_identifier (c_str (arg argv 3)) = true)
  /\ (fst (ProcessString argv w) = 0
      <-> c_str (arg argv 2) <> c_str (arg argv 3)
          /\ input_opens w (c_str (arg argv 2)) = true
          /\ can_write w (c_str (arg argv 3)) = true
          /\ matches_identifier (c_str (arg argv 4)) = true)
  /\ (fst (ProcessHex argv w) = 0 \/ fst (ProcessHex argv w) = 1)
  /\ (fst (ProcessString argv w) = 0 \/ fst (ProcessString argv w) = 1).
Proof.
  rewrite ProcessHex_return_value, ProcessString_return_value.
  pose proof (CompareStrings_0 (arg argv 1) (arg argv 2)) as H12.
  pose proof (CompareStrings_0 (arg argv 2) (arg argv 3)) as H23.
  destruct (Z.eqb_spec (CompareStrings (arg argv 1) (arg argv 2)) 0);
    destruct (Z.eqb_spec (CompareStrings (arg argv 2) (arg argv 3)) 0);
    destruct (input_opens w (c_str (arg argv 1)));
    destruct (input_opens w (c_str (arg argv 2)));
    destruct (can_write w (c_str (arg argv 2)));
    destruct (can_write w (c_str (arg argv 3)));
    destruct (matches_identifier (c_str (arg argv 3)));
    destruct (matches_identifier (c_str (arg argv 4)));
    cbn [negb]; intuition (try discriminate; try congruence).
Qed.

(** ** Runs one after the other *)

Lemma files_ready_converted w inputFileName outputFileName input content :
  files_ready w inputFileName outputFileName input ->
  files_ready (converted inputFileName outputFileName content w)
    inputFileName outputFileName input.
Proof.
  intros (Hi & Ho & Hne & Hr & Hf & Hw).
  unfold files_ready, converted, with_file. world_fields.
  rewrite lookup_insert_ne by congruence. auto 10.
Qed.

Lemma files_converted_twice w inputFileName outputFileName content content' :
  files (converted inputFileName outputFileName content
           (converted inputFileName outputFileName content' w))
  = files (converted inputFileName outputFileName content w).
Proof.
  unfold converted, with_file. world_fields. apply insert_insert_eq.
Qed.

(** X12.  A run replaces the output file, it does not append to it:
    the files after a second run of an encoder are those after a single
    run, and after a run of one encoder on the output of the other they
    are those the last encoder leaves when run alone.  The second run
    returns 0 as well. *)
Theorem conversion_overwrites (prog flag inputFileName outputFileName
    arrayName : string) (w : World) (input : list byte) :
  files_ready w inputFileName outputFileName input ->
  matches_identifier arrayName = true ->
  let hex := ProcessHex [prog; inputFileName; outputFileName; arrayName] in
  let str :=
    ProcessString [prog; flag; inputFileName; outputFileName; arrayName] in
  fst (hex (snd (hex w))) = 0
  /\ fst (str (snd (str w))) = 0
  /\ files (snd (hex (snd (hex w)))) = files (snd (hex w))
  /\ files (snd (str (snd (str w)))) = files (snd (str w))
  /\ files (snd (hex (snd (str w)))) = files (snd (hex w))
  /\ files (snd (str (snd (hex w)))) = files (snd (str w)).
Proof.
  intros Hf Hn hex str. subst hex str.
  rewrite (ProcessHex_converts _ _ _ _ _ _ Hf Hn).
  rewrite (ProcessString_converts _ _ _ _ _ _ _ Hf Hn).
  cbn [snd].
  rewrite !(ProcessHex_converts _ _ _ _ _ _ (files_ready_converted _ _ _ _ _ Hf) Hn).
  rewrite !(ProcessString_converts _ _ _ _ _ _ _
              (files_ready_converted _ _ _ _ _ Hf) Hn).
  cbn [fst snd]. rewrite !files_converted_twice. auto 10.
Qed.

(** ** The output of the hex encoder as a text *)

Lemma text_byte_identifier s :
  forallb identifier_part (String.list_ascii_of_string s) = true ->
  forallb text_byte (bytes s) = true.
Proof.
  unfold bytes, String.list_byte_of_string.
  induction s as [|c s IH]; [reflexivity|].
  cbn [String.list_ascii_of_string forallb map]. intros H.
  apply andb_prop in H as [Hc H]. rewrite (IH H), andb_true_r.
  revert Hc. clear.
  destruct c as [[] [] [] [] [] [] [] []]; (reflexivity || discriminate).
Qed.

Lemma text_byte_hex_pair b : forallb text_byte (hex_pair b) = true.
Proof. destruct b; reflexivity. Qed.

Lemma text_byte_array_body_from input : forall i,
  forallb text_byte (array_body_from i input) = true.
Proof.
  induction input as [|b input IH]; intros i; [reflexivity|].
  cbn [array_body_from]. unfold element_text.
  rewrite !forallb_app, IH, text_byte_hex_pair.
  destruct (i =? 0)%nat, (i mod 8 =? 0)%nat; reflexivity.
Qed.

(** X13.  Whatever bytes the input holds, the file the hex encoder
    writes is a text: every byte of it is a newline or a printable
    ASCII character. *)
Theorem hex_output_is_text (prog inputFileName outputFileName arrayName : string)
    (w : World) (input : list byte) :
  files_ready w inputFileName outputFileName input ->
  matches_identifier arrayName = true ->
  exists content,
    ProcessHex [prog; inputFileName; outputFileName; arrayName] w
    = (0, converted inputFileName outputFileName content w)
    /\ forallb text_byte content = true.
Proof.
  intros Hf Hn. eexists.
  split; [exact (ProcessHex_converts _ _ _ _ _ _ Hf Hn)|].
  unfold hex_prologue, hex_epilogue, array_body.
  rewrite !forallb_app, text_byte_array_body_from,
    (text_byte_identifier arrayName).
  - reflexivity.
  - destruct arrayName as [|c s]; [discriminate|].
    unfold matches_identifier in Hn. now apply andb_prop in Hn as [_ Hn].
Qed.

(** ** The size of the array *)

Lemma length_element_text i b :
  length (element_text i b)
  = (5 + occurrences "," (element_text i b)
     + 4 * occurrences LF (element_text i b))%nat.
Proof.
  rewrite occurrences_comma_element, occurrences_LF_element.
  unfold element_text, hex_pair. rewrite !length_app.
  destruct (i =? 0)%nat, (i mod 8 =? 0)%nat; reflexivity.
Qed.

Lemma length_array_body_from input : forall i,
  length (array_body_from i input)
  = (5 * length input + occurrences "," (array_body_from i input)
     + 4 * occurrences LF (array_body_from i input))%nat.
Proof.
  induction input as [|b input IH]; intros i; [reflexivity|].
  cbn [array_body_from length].
  rewrite length_app, !occurrences_app, IH, length_element_text. lia.
Qed.

Lemma length_bytes s : length (bytes s) = String.length s.
Proof.
  unfold bytes, String.list_byte_of_string.
  induction s as [|c s IH]; [reflexivity|].
  cbn [String.list_ascii_of_string map length String.length]. now rewrite IH.
Qed.

(** X14.  The size of the file the hex encoder writes: 50 bytes of
    guard, declaration and closing brace, the array name, and for [n]
    input bytes five characters each, [n - 1] commas and four
    characters of line break and indent for every 8 bytes begun. *)
Theorem hex_output_size (prog inputFileName outputFileName arrayName : string)
    (w : World) (input : list byte) :
  files_ready w inputFileName outputFileName input ->
  matches_identifier arrayName = true ->
  exists content,
    ProcessHex [prog; inputFileName; outputFileName; arrayName] w
    = (0, converted inputFileName outputFileName content w)
    /\ length content
       = (50 + String.length arrayName + 5 * length input
          + (length input - 1) + 4 * ((length input + 7) / 8))%nat.
Proof.
  intros Hf Hn. eexists.
  split; [exact (ProcessHex_converts _ _ _ _ _ _ Hf Hn)|].
  unfold hex_prologue, hex_epilogue.
  rewrite !length_app, !length_bytes. unfold array_body at 1.
  rewrite length_array_body_from.
  fold (array_body input).
  rewrite occurrences_comma_body, occurrences_LF_body.
  cbn [length]. rewrite ?length_bytes. cbn [String.length]. lia.
Qed.

(** ** More on the string encoder and the validator *)

Lemma without_LF_only_newlines input :
  without_LF input = [] <-> forallb (fun c => Byte.eqb c LF) input = true.
Proof.
  unfold without_LF. induction input as [|c input IH]; [tauto|].
  cbn [List.filter forallb].
  destruct (Byte.eqb c LF); cbn [negb andb]; [exact IH|].
  split; discriminate.
Qed.

(** X15.  The payload of the string encoder is empty exactly when the
    input holds nothing but newline bytes (the empty input included);
    the file is then the guard, the declaration and an empty raw
    string. *)
Theorem string_payload_empty_iff (prog flag inputFileName outputFileName
    arrayName : string) (w : World) (input : list byte) :
  files_ready w inputFileName outputFileName input ->
  matches_identifier arrayName = true ->
  (ProcessString [prog; flag; inputFileName; outputFileName; arrayName] w
   = (0, converted inputFileName outputFileName
           (string_prologue arrayName ++ string_epilogue) w)
   <-> forallb (fun c => Byte.eqb c LF) input = true).
Proof.
  intros Hf Hn. rewrite (ProcessString_converts _ _ _ _ _ _ _ Hf Hn).
  rewrite <- without_LF_only_newlines. split.
  - intros H.
    apply (f_equal (fun r => files (snd r) !! outputFileName)) in H.
    unfold converted, with_file in H. cbn [snd files set_files] in H.
    rewrite !lookup_insert_eq in H. injection H as H.
    apply app_inv_head in H.
    rewrite <- (app_nil_l string_epilogue) in H at 2.
    now apply app_inv_tail in H.
  - intros ->. reflexivity.
Qed.

Lemma start_or_digit c :
  identifier_part c = true -> identifier_start c = negb (is_digit c).
Proof. destruct c as [[] [] [] [] [] [] [] []]; (reflexivity || discriminate). Qed.

(** X16.  The two tests of [ValidateArrayName] differ by the digits
    only: a non-empty name made of allowed characters is rejected
    exactly when its first character is one of [0] to [9]. *)
Theorem ValidateArrayName_leading_digit (arrayName : string) (w : World) :
  is_cstring arrayName = true ->
  arrayName <> EmptyString ->
  forallb identifier_part (String.list_ascii_of_string arrayName) = true ->
  fst (ValidateArrayName arrayName w) = negb (is_digit (deref arrayName)).
Proof.
  intros Hc Hne Hall. rewrite (ValidateArrayName_cstring _ _ Hc).
  destruct arrayName as [|c s]; [contradiction|].
  assert (Hm : matches_identifier (String c s) = negb (is_digit c)).
  { unfold matches_identifier. rewrite Hall, andb_true_r.
    apply start_or_digit. cbn [String.list_ascii_of_string forallb] in Hall.
    now apply andb_prop in Hall as [Hp _]. }
  cbn [deref]. rewrite <- Hm.
  destruct (matches_identifier (String c s)); reflexivity.
Qed.

(** ** From the command line to the file *)

(** X17.  A conversion from the command line: with the files ready and
    an identifier as array name, [main] returns 0 and leaves the
    encoded input in the output file, in hex mode when the input path
    does not begin with [/], in string mode for [/s] and [/string]
    alike and for any input path. *)
Theorem main_converts (prog inputFileName outputFileName arrayName : string)
    (w : World) (input : list byte) :
  files_ready w inputFileName outputFileName input ->
  matches_identifier arrayName = true ->
  (deref inputFileName <> "/"%char ->
   main [prog; inputFileName; outputFileName; arrayName] w
   = (0, converted inputFileName outputFileName
           (hex_prologue arrayName ++ array_body input ++ hex_epilogue) w))
  /\ main [prog; "/s"; inputFileName; outputFileName; arrayName] w
     = (0, converted inputFileName outputFileName
             (string_prologue arrayName ++ without_LF input ++ string_epilogue)
             w)
  /\ main [prog; "/string"; inputFileName; outputFileName; arrayName] w
     = main [prog; "/s"; inputFileName; outputFileName; arrayName] w.
Proof.
  intros Hf Hn. repeat apply conj.
  - intros Hs. rewrite main_hex by assumption.
    now apply ProcessHex_converts.
  - rewrite main_string by (left; reflexivity).
    now apply ProcessString_converts.
  - rewrite !main_string by (unfold string_option; auto).
    cbn [length Nat.ltb Nat.leb].
    now rewrite !(ProcessString_converts _ _ _ _ _ _ _ Hf Hn).
Qed.

(** X18.  The order of the opens: an encoder opens nothing, or the
    input file only, or the input file and then the output file; a
    file is written only in the last case, and only the output file. *)
Theorem open_order (argv : list string) (w : World) :
  (exists names,
     opened (snd (ProcessHex argv w)) = opened w ++ names
     /\ (names = [] /\ files (snd (ProcessHex argv w)) = files w
         \/ names = [c_str (arg argv 1)]
            /\ files (snd (ProcessHex argv w)) = files w
         \/ names = [c_str (arg argv 1); c_str (arg argv 2)]))
  /\ (exists names,
        opened (snd (ProcessString argv w)) = opened w ++ names
        /\ (names = [] /\ files (snd (ProcessString argv w)) = files w
            \/ names = [c_str (arg argv 2)]
               /\ files (snd (ProcessString argv w)) = files w
            \/ names = [c_str (arg argv 2); c_str (arg argv 3)])).
Proof.
  split.
  - destruct (ProcessHex_frame argv w)
      as (code & written & names & message & -> & _ & _ & Hn & _).
    exists names. cbn [snd opened files outcome]. split; [reflexivity|].
    destruct Hn as [[-> ->] | [[-> ->] | ->]]; auto.
  - destruct (ProcessString_frame argv w)
      as (code & written & names & message & -> & _ & _ & Hn & _).
    exists names. cbn [snd opened files outcome]. split; [reflexivity|].
    destruct Hn as [[-> ->] | [[-> ->] | ->]]; auto.
Qed.

End Converter.

(** * The claims at concrete inputs *)

Ltac sample_ready := repeat split; (reflexivity || discriminate).

Lemma hex_round_trip_witness :
  exists body,
    ProcessHex true ["prog"; "in.bin"; "out.h"; "myData"] sample_world
    = (0, converted "in.bin" "out.h"
            (hex_prologue "myData" ++ body ++ hex_epilogue) sample_world)
    /\ decode_array body = sample_bytes
    /\ decode_array (hex_prologue "myData" ++ body ++ hex_epilogue)
       = sample_bytes.
Proof.
  apply (hex_round_trip true "prog" "in.bin" "out.h" "myData" sample_world
           sample_bytes); [sample_ready | reflexivity].
Defined.

Lemma hex_element_format_witness :
  ProcessHex true ["prog"; "in.bin"; "out.h"; "myData"] sample_world
  = (0, converted "in.bin" "out.h"
          (bytes "#pragma once" ++ [LF; LF]
           ++ bytes "static const unsigned char myData[] = {" ++ [LF]
           ++ bytes "    0x00, 0xff, 0x0a" ++ [LF]
           ++ bytes "};") sample_world)
  /\ occurrences "," (concat (imap element_text sample_bytes)) = 2%nat
  /\ last (concat (imap element_text sample_bytes)) <> Some ","%byte
  /\ occurrences LF (concat (imap element_text sample_bytes)) = 1%nat
  /\ (forall b, exists high low,
        hex_pair b = [high; low]
        /\ In high (bytes "0123456789abcdef")
        /\ In low (bytes "0123456789abcdef")
        /\ parse_hex_literal (bytes "0x" ++ hex_pair b) = Some b).
Proof.
  apply (hex_element_format true "prog" "in.bin" "out.h" "myData" sample_world
           sample_bytes); [sample_ready | reflexivity | discriminate].
Defined.

Lemma ValidateArrayName_characterization_witness :
  fst (ValidateArrayName true "_data1" sample_world) = true
  /\ deref EmptyString = NUL
  /\ allowed_first true (deref EmptyString) = false
  /\ fst (ValidateArrayName true EmptyString sample_world) = false.
Proof.
  apply (ValidateArrayName_characterization true "_data1" sample_world).
  reflexivity.
Defined.

Lemma argument_dispatch_witness :
  main true "FileToHeaderConverter" ["prog"; "/s"; "in.txt"; "out.h"; "text"]
    sample_world
  = ProcessString true ["prog"; "/s"; "in.txt"; "out.h"; "text"] sample_world
  /\ main true "FileToHeaderConverter" ["prog"; "in.bin"; "out.h"; "myData"]
       sample_world
     = ProcessHex true ["prog"; "in.bin"; "out.h"; "myData"] sample_world
  /\ main true "FileToHeaderConverter" ["prog"] sample_world
     = (1, diagnostic "ERROR: Not enough arguments" sample_world)
  /\ main true "FileToHeaderConverter" ["prog"; "/string"; "in.txt"; "out.h"]
       sample_world
     = (1, diagnostic "ERROR: Not enough arguments" sample_world)
  /\ main true "FileToHeaderConverter"
       ["prog"; "/s"; "in.txt"; "out.h"; "text"; "more"] sample_world
     = (1, diagnostic "ERROR: Too many arguments" sample_world)
  /\ main true "FileToHeaderConverter" ["prog"; "in.bin"; "out.h"] sample_world
     = (1, diagnostic "ERROR: Not enough arguments" sample_world)
  /\ main true "FileToHeaderConverter"
       ["prog"; "in.bin"; "out.h"; "myData"; "more"] sample_world
     = (1, diagnostic "ERROR: Too many arguments" sample_world)
  /\ main true "FileToHeaderConverter" ["prog"; "/x"; "in.bin"; "out.h"; "myData"]
       sample_world
     = (1, diagnostic "ERROR: Unrecognized option" sample_world).
Proof.
  destruct (argument_dispatch true "FileToHeaderConverter" sample_world)
    as (Hs & Hh & H0 & Hsf & Hsm & Hhf & Hhm & Hu & _).
  repeat apply conj.
  - apply Hs. left. reflexivity.
  - apply Hh. discriminate.
  - apply H0. simpl. lia.
  - apply Hsf; [right; reflexivity | simpl; lia].
  - apply Hsm; [left; reflexivity | simpl; lia].
  - apply Hhf; [discriminate | simpl; lia].
  - apply Hhm; [discriminate | simpl; lia].
  - apply Hu; [reflexivity | reflexivity | |]; intros [H | H]; discriminate H.
Defined.

Lemma same_name_guard_witness :
  main true "FileToHeaderConverter" ["prog"; "in.bin"; "in.bin"; "myData"]
    sample_world
  = (1, same_name_error sample_world).
Proof.
  destruct (same_name_guard true "FileToHeaderConverter" "prog" "in.bin"
              "myData" sample_world) as (_ & _ & Hmain & _).
  apply Hmain. discriminate.
Defined.

Lemma string_payload_lines_witness :
  ProcessString true ["prog"; "/s"; "in.txt"; "out.h"; "text"] sample_world
  = (0, converted "in.txt" "out.h"
          (string_prologue "text"
           ++ concat (List.map written_line (terminated_lines sample_text))
           ++ string_epilogue) sample_world)
  /\ ProcessString true ["prog"; "/s"; "in.txt"; "out.h"; "text"] sample_world
     = (0, converted "in.txt" "out.h"
             (string_prologue "text" ++ concat (text_lines sample_text)
              ++ string_epilogue) sample_world)
  /\ text_lines sample_text = [bytes "abc"; bytes "def"]
  /\ ProcessString true ["prog"; "/s"; "in.txt"; "out.h"; "text"] sample_world
     = (0, converted "in.txt" "out.h"
             (string_prologue "text" ++ bytes "abcdef" ++ string_epilogue)
             sample_world).
Proof.
  destruct (string_payload_lines true "prog" "/s" "in.txt" "out.h" "text"
              sample_world sample_text) as (Hrun & Hfree & Hsample);
    [sample_ready | reflexivity |].
  split; [exact Hrun|]. split; [apply Hfree; reflexivity|].
  apply Hsample. reflexivity.
Defined.

(** A text with DOS line ends refutes the claim as it stands: the
    lines of [ab], carriage return, line feed, [cd] are [ab] and [cd],
    but the payload is [ab], carriage return, [cd]. *)
Lemma string_payload_lines_counterexample :
  files_ready sample_crlf_world "crlf.txt" "out.h" sample_crlf_text
  /\ matches_identifier "text" = true
  /\ text_lines sample_crlf_text = [bytes "ab"; bytes "cd"]
  /\ ProcessString true ["prog"; "/s"; "crlf.txt"; "out.h"; "text"]
       sample_crlf_world
     = (0, converted "crlf.txt" "out.h"
             (string_prologue "text" ++ bytes "ab" ++ [CR] ++ bytes "cd"
              ++ string_epilogue) sample_crlf_world)
  /\ ProcessString true ["prog"; "/s"; "crlf.txt"; "out.h"; "text"]
       sample_crlf_world
     <> (0, converted "crlf.txt" "out.h"
              (string_prologue "text" ++ concat (text_lines sample_crlf_text)
               ++ string_epilogue) sample_crlf_world).
Proof.
  split; [sample_ready|]. split; [reflexivity|]. split; [reflexivity|].
  split; [vm_compute; reflexivity|].
  intros H.
  apply (f_equal (fun run => files (snd run) !! "out.h")) in H.
  vm_compute in H. discriminate H.
Qed.

Lemma truncate_before_validate_witness :
  exists w',
    ProcessHex true ["prog"; "in.bin"; "out.h"; "9lives"] sample_world = (1, w')
    /\ ProcessString true ["prog"; "/s"; "in.bin"; "out.h"; "9lives"] sample_world
       = (1, w')
    /\ opened w' = opened sample_world ++ ["in.bin"; "out.h"]
    /\ files w' !! "out.h" = Some []
    /\ (forall other, other <> "out.h" ->
          files w' !! other = files sample_world !! other)
    /\ cout w' = cout sample_world
    /\ cerr w' = cerr sample_world ++ invalid_name_text.
Proof.
  apply (truncate_before_validate true "prog" "/s" "in.bin" "out.h" "9lives"
           sample_world sample_bytes); [sample_ready | reflexivity | reflexivity].
Defined.

Lemma hex_empty_input_witness :
  ProcessHex true ["prog"; "empty.bin"; "out.h"; "nothing"] sample_world
  = (0, converted "empty.bin" "out.h"
          (bytes "#pragma once" ++ [LF] ++ [LF]
           ++ bytes "static const unsigned char nothing[] = {" ++ [LF]
           ++ bytes "};") sample_world).
Proof.
  apply (hex_empty_input true "prog" "empty.bin" "out.h" "nothing" sample_world);
    [sample_ready | reflexivity].
Defined.

Lemma string_payload_without_LF_witness :
  ProcessString true ["prog"; "/string"; "open.txt"; "out.h"; "text"]
    sample_world
  = (0, converted "open.txt" "out.h"
          (string_prologue "text" ++ bytes "abcdef" ++ string_epilogue)
          sample_world).
Proof.
  apply (string_payload_without_LF true "prog" "/string" "open.txt" "out.h"
           "text" sample_world sample_open_text); [sample_ready | reflexivity].
Defined.


(** ** The model at work *)

(** The end-to-end scenario of the specification: the bytes 00 FF 0A
    under the name [myData]. *)
Example end_to_end_hex :
  main true "FileToHeaderConverter" ["prog"; "in.bin"; "out.h"; "myData"]
    sample_world
  = (0, converted "in.bin" "out.h"
          (bytes "#pragma once" ++ [LF; LF]
           ++ bytes "static const unsigned char myData[] = {" ++ [LF]
           ++ bytes "    0x00, 0xff, 0x0a" ++ [LF]
           ++ bytes "};") sample_world).
Proof. vm_compute. reflexivity. Qed.

Example end_to_end_string :
  main true "FileToHeaderConverter" ["prog"; "/s"; "in.txt"; "out.h"; "text"]
    sample_world
  = (0, converted "in.txt" "out.h"
          (bytes "#pragma once" ++ [LF; LF]
           ++ bytes "static const char text[] = R" ++ [x22] ++ bytes "(abcdef)"
           ++ [x22] ++ bytes ";") sample_world).
Proof. vm_compute. reflexivity. Qed.

(** The loop of the hex encoder, run on inputs of the lengths around
    the wrap of the lines, and read back. *)
Example round_trip_lengths :
  Forall (fun n =>
            decode_array
              (os_buf (hex_loop (counting_bytes n) 0 true fresh_ostream))
            = counting_bytes n)
         [0; 1; 7; 8; 9; 1000]%nat.
Proof.
  repeat (apply List.Forall_cons; [vm_compute; reflexivity|]).
  apply List.Forall_nil.
Qed.

(** Nine bytes make two lines. *)
Example nine_bytes :
  os_buf (hex_loop (counting_bytes 9) 0 true fresh_ostream)
  = [LF] ++ bytes "    0x00, 0x01, 0x02, 0x03, 0x04, 0x05, 0x06, 0x07,"
    ++ [LF] ++ bytes "    0x08".
Proof. vm_compute. reflexivity. Qed.

(** The input stream is binary: a carriage return in front of a
    newline is an ordinary character of its line. *)
Example carriage_return_is_kept :
  os_buf (string_loop (bytes "ab" ++ [x0d; x0a] ++ bytes "cd") fresh_ostream)
  = bytes "ab" ++ [x0d] ++ bytes "cd".
Proof. vm_compute. reflexivity. Qed.

(** A path that begins with [/] is taken for an option. *)
Example absolute_path_is_an_option :
  main true "FileToHeaderConverter" ["prog"; "/tmp/in.bin"; "out.h"; "myData"]
    sample_world
  = (1, diagnostic "ERROR: Unrecognized option" sample_world).
Proof. vm_compute. reflexivity. Qed.

(** * The further properties at concrete inputs *)

Lemma CompareStrings_first_difference_witness :
  CompareStrings true "/string" "/s"
  = int_of_char true "t" - int_of_char true NUL.
Proof.
  apply (CompareStrings_first_difference true "/s" "tring" EmptyString);
    [reflexivity | discriminate].
Defined.

Lemma input_open_failure_witness :
  ProcessHex true ["prog"; "missing.bin"; "out.h"; "myData"] sample_world
  = (1, outcome sample_world None ["missing.bin"]
          (bytes "Error: Couldn't open input file" ++ [LF]))
  /\ ProcessString true ["prog"; "/s"; "missing.bin"; "out.h"; "myData"]
       sample_world
     = (1, outcome sample_world None ["missing.bin"]
             (bytes "Error: Couldn't open input file" ++ [LF])).
Proof.
  apply (input_open_failure true "prog" "/s" "missing.bin" "out.h" "myData"
           sample_world);
    [reflexivity | reflexivity | discriminate | right; reflexivity].
Defined.

Lemma output_open_failure_witness :
  ProcessHex true ["prog"; "in.bin"; "out.h"; "9lives"] sample_locked_world
  = (1, outcome sample_locked_world None ["in.bin"; "out.h"]
          (bytes "Error: Couldn't open output file" ++ [LF]))
  /\ ProcessString true ["prog"; "/s"; "in.bin"; "out.h"; "9lives"]
       sample_locked_world
     = (1, outcome sample_locked_world None ["in.bin"; "out.h"]
             (bytes "Error: Couldn't open output file" ++ [LF])).
Proof.
  apply (output_open_failure true "prog" "/s" "in.bin" "out.h" "9lives"
           sample_locked_world [x00; xff; x0a]);
    (reflexivity || discriminate).
Defined.

Lemma conversion_overwrites_witness :
  let hex := ProcessHex true ["prog"; "in.bin"; "out.h"; "myData"] in
  let str := ProcessString true ["prog"; "/s"; "in.bin"; "out.h"; "myData"] in
  fst (hex (snd (hex sample_world))) = 0
  /\ fst (str (snd (str sample_world))) = 0
  /\ files (snd (hex (snd (hex sample_world)))) = files (snd (hex sample_world))
  /\ files (snd (str (snd (str sample_world)))) = files (snd (str sample_world))
  /\ files (snd (hex (snd (str sample_world)))) = files (snd (hex sample_world))
  /\ files (snd (str (snd (hex sample_world)))) = files (snd (str sample_world)).
Proof.
  apply (conversion_overwrites true "prog" "/s" "in.bin" "out.h" "myData"
           sample_world sample_bytes); [sample_ready | reflexivity].
Defined.

Lemma hex_output_is_text_witness :
  exists content,
    ProcessHex true ["prog"; "in.bin"; "out.h"; "myData"] sample_world
    = (0, converted "in.bin" "out.h" content sample_world)
    /\ forallb text_byte content = true.
Proof.
  apply (hex_output_is_text true "prog" "in.bin" "out.h" "myData" sample_world
           sample_bytes); [sample_ready | reflexivity].
Defined.

Lemma hex_output_size_witness :
  exists content,
    ProcessHex true ["prog"; "in.bin"; "out.h"; "myData"] sample_world
    = (0, converted "in.bin" "out.h" content sample_world)
    /\ length content = 77%nat.
Proof.
  apply (hex_output_size true "prog" "in.bin" "out.h" "myData" sample_world
           sample_bytes); [sample_ready | reflexivity].
Defined.

Lemma string_payload_empty_iff_witness :
  ProcessString true ["prog"; "/s"; "empty.bin"; "out.h"; "nothing"]
    sample_world
  = (0, converted "empty.bin" "out.h"
          (string_prologue "nothing" ++ string_epilogue) sample_world).
Proof.
  apply (string_payload_empty_iff true "prog" "/s" "empty.bin" "out.h"
           "nothing" sample_world []); [sample_ready | reflexivity | reflexivity].
Defined.

Lemma ValidateArrayName_leading_digit_witness :
  fst (ValidateArrayName true "9lives" sample_world) = false.
Proof.
  apply (ValidateArrayName_leading_digit true "9lives" sample_world);
    [reflexivity | discriminate | reflexivity].
Defined.

Lemma main_converts_witness :
  main true "FileToHeaderConverter" ["prog"; "in.bin"; "out.h"; "myData"]
    sample_world
  = (0, converted "in.bin" "out.h"
          (hex_prologue "myData" ++ array_body sample_bytes ++ hex_epilogue)
          sample_world).
Proof.
  destruct (main_converts true "FileToHeaderConverter" "prog" "in.bin" "out.h"
              "myData" sample_world sample_bytes) as (Hhex & _);
    [sample_ready | reflexivity |].
  apply Hhex. discriminate.
Defined.
